(** * BlockModel: the reactive block node of the store

    A shallow embedding of
    [blocksuite/framework/store/src/model/block/block-model.ts].

    A [BlockModel] is a typed view over one CRDT record ([yBlock]).  Its
    stored child ids live in the signal [_children]; [children] resolves
    them through the document index ([page.getBlock$]); the lifecycle
    slots [created] / [deleted] / [propsUpdated] carry the notifications.

    The first half of the file embeds the derived values and the
    navigation methods, which are pure functions of the signal value and
    of the document index.  The second half embeds the lifecycle: the
    slots, the observers put on the backing record and the teardown
    methods, as state passing over a small world. *)

From stdpp Require Import gmap strings list fin_maps.

Open Scope string_scope.
Open Scope list_scope.

(** ** Slots and their callbacks *)

(** The closures that the class itself hands to a slot are named; every
    subscriber from outside the class is a [Listener]. *)
Inductive callback :=
  | OnceCreated            (* handler of [this.created.once(...)] *)
  | OnceDeleted            (* handler of [this.deleted.once(...)] *)
  | Listener (l : nat).

Global Instance callback_eq_dec : EqDecision callback.
Proof. solve_decision. Defined.

(** Modelled from the spec: the class [Slot] of [@blocksuite/global/utils]
    is not among the sources.  The spec describes [created] / [deleted] as
    one-shot notifications and teardown as releasing all subscriptions, safe
    to repeat.  A slot is the list of its subscribed callbacks. *)
Record Slot := { _callbacks : list callback }.

(** ** The node *)

Record BlockModel := {
  id : string;
  flavour : string;
  _children : list string;      (* value of the signal [_children] *)
  created : Slot;
  deleted : Slot;
  propsUpdated : Slot;
}.

(** The document index: [page.getBlock$(id)] followed by [.model]. *)
Abbreviation Blocks := (gmap string BlockModel).

Definition getBlock (page : Blocks) (i : string) : option BlockModel :=
  page !! i.

(** What a call of a recursive method does. *)
Inductive outcome (A : Type) :=
  | Returned (a : A)
  | Thrown               (* a TypeError *)
  | OutOfFuel.           (* the recursion has not come back yet *)
Arguments Returned {A} a.
Arguments Thrown {A}.
Arguments OutOfFuel {A}.

(** ** Derived values *)

Section Derived.
Variable page : Blocks.

(** [_childModels]: [forEach] over the stored ids, pushing the model of
    every id that resolves. *)
Definition _childModels (this : BlockModel) : list BlockModel :=
  fold_left
    (fun value i =>
       match getBlock page i with
       | Some block => value ++ [block]
       | None => value
       end)
    (_children this) [].

(** [get children()] *)
Definition children (this : BlockModel) : list BlockModel :=
  _childModels this.

(** [isEmpty()] *)
Definition isEmpty (this : BlockModel) : bool :=
  Nat.eqb (length (children this)) 0.

(** [firstChild()]: [this.children[0] || null].  An element of
    [children] is an object, hence truthy; [undefined] is falsy. *)
Definition firstChild (this : BlockModel) : option BlockModel :=
  match children this !! 0 with
  | Some c => Some c
  | None => None
  end.

(** [lastChild(): BlockModel | null]; [None] stands for [null]. *)
Fixpoint lastChild (fuel : nat) (this : BlockModel)
  : outcome (option BlockModel) :=
  match fuel with
  | O => OutOfFuel
  | S fuel' =>
      if Nat.eqb (length (children this)) 0 then Returned (Some this)
      else
        match children this !! (length (children this) - 1) with
        | Some c => lastChild fuel' c
        | None => Thrown
        end
  end.
End Derived.

(** [Array.prototype.reduce] with the index argument. *)
Fixpoint reduce {A B : Type} (f : B -> A -> nat -> B) (l : list A)
    (index : nat) (acc : B) : B :=
  match l with
  | [] => acc
  | x :: l' => reduce f l' (S index) (f acc x index)
  end.

(** [map.set(id, index); return map] *)
Definition set_index (map : gmap string nat) (i : string) (index : nat)
  : gmap string nat :=
  <[i := index]> map.

(** [childMap]: a fresh [Map] filled by the reducer. *)
Definition childMap (this : BlockModel) : gmap string nat :=
  reduce set_index (_children this) 0 ∅.

(** ** The backing record *)

(** The closures that the [created] callback hands to the backing record
    are named; an observer of another party is foreign. *)
Inductive array_observer :=
  | SyncFromTarget         (* [event => _children.value = event.target.toArray()] *)
  | ArrayForeign (n : nat).

Inductive map_observer :=
  | SyncOnKey              (* [event => if (event.keysChanged.has('sys:children')) ...] *)
  | MapForeign (n : nat).

Global Instance array_observer_eq_dec : EqDecision array_observer.
Proof. solve_decision. Defined.

Global Instance map_observer_eq_dec : EqDecision map_observer.
Proof. solve_decision. Defined.

(** Modelled from the spec: the observation API of the backing record (the
    array and map types of the external CRDT library) is not among the
    sources.  The spec has the record's change notifications update the
    node synchronously; the source registers one observer on the array
    object it reads from ['sys:children'] and one on the record, and asks
    the latter's event for its changed keys.  So an observer belongs to one
    object and is called when that object itself changes: the array
    observer on an edit of that array, the map observer when an entry of
    the map is set.  The record holds its current child-id array as an
    object of its own: an edit in place keeps the object and its observers,
    setting the entry ['sys:children'] installs a fresh object. *)
Record YArray := {
  toArray : list string;
  array_observers : list array_observer;
}.

Record YBlock := {
  sys_children : YArray;                 (* [yBlock.get('sys:children')] *)
  entries : gmap string string;          (* every other key *)
  map_observers : list map_observer;
}.

(** ** The world of one node *)

Inductive slot_name := SlotCreated | SlotDeleted | SlotPropsUpdated.

Global Instance slot_name_eq_dec : EqDecision slot_name.
Proof. solve_decision. Defined.

(** What a party outside the class gets to see: a slot calling one of its
    listeners, and the signal [_children] announcing a new value to its
    dependents. *)
Inductive notification :=
  | Delivered (s : slot_name) (l : nat) (payload : option string)
  | ChildrenChanged (ids : list string).

Record World := {
  this : BlockModel;
  yBlock : YBlock;                       (* [this.yBlock] *)
  notifications : list notification;     (* oldest first *)
}.

(** *** Field updates *)

Definition with_children (ids : list string) (m : BlockModel) : BlockModel :=
  {| id := id m; flavour := flavour m; _children := ids;
     created := created m; deleted := deleted m;
     propsUpdated := propsUpdated m |}.

Definition slot_of (s : slot_name) (m : BlockModel) : Slot :=
  match s with
  | SlotCreated => created m
  | SlotDeleted => deleted m
  | SlotPropsUpdated => propsUpdated m
  end.

Definition with_slot (s : slot_name) (v : Slot) (m : BlockModel) : BlockModel :=
  {| id := id m; flavour := flavour m; _children := _children m;
     created := if decide (s = SlotCreated) then v else created m;
     deleted := if decide (s = SlotDeleted) then v else deleted m;
     propsUpdated := if decide (s = SlotPropsUpdated) then v else propsUpdated m |}.

Definition with_this (m : BlockModel) (w : World) : World :=
  {| this := m; yBlock := yBlock w; notifications := notifications w |}.

Definition with_yBlock (y : YBlock) (w : World) : World :=
  {| this := this w; yBlock := y; notifications := notifications w |}.

Definition notify (n : notification) (w : World) : World :=
  {| this := this w; yBlock := yBlock w;
     notifications := notifications w ++ [n] |}.

(** ** Slot operations *)

(** Modelled from the spec: [Slot] is not among the sources.  [on]
    subscribes a callback and the [Disposable] it returns takes that
    callback out again; [dispose] releases all subscriptions; [emit] calls
    the callbacks subscribed when the emission starts.  [once] subscribes a
    handler that takes itself out after its first call (the spec's one-shot
    notification). *)
Definition Slot_new : Slot := {| _callbacks := [] |}.

Definition Slot_on (cb : callback) (s : Slot) : Slot :=
  {| _callbacks := _callbacks s ++ [cb] |}.

Definition Slot_off (cb : callback) (s : Slot) : Slot :=
  {| _callbacks := filter (fun c => c ≠ cb) (_callbacks s) |}.

Definition Slot_dispose (s : Slot) : Slot := {| _callbacks := [] |}.

(** The [dispose] of the [Disposable] returned for [cb] on the slot [s]. *)
Definition unsubscribe (s : slot_name) (cb : callback) (w : World) : World :=
  with_this (with_slot s (Slot_off cb (slot_of s (this w))) (this w)) w.

(** ** The class *)

(** [constructor()]: both lifecycle slots get their one-shot handler.  The
    store assigns [id] and [flavour] afterwards; they are arguments here. *)
Definition new_BlockModel (i fl : string) : BlockModel :=
  {| id := i; flavour := fl; _children := [];
     created := Slot_on OnceCreated Slot_new;
     deleted := Slot_on OnceDeleted Slot_new;
     propsUpdated := Slot_new |}.

(** [this._children.value = ids].  [toArray()] builds a new array each
    time, so the signal always announces the assignment. *)
Definition assign_children (ids : list string) (w : World) : World :=
  notify (ChildrenChanged ids) (with_this (with_children ids (this w)) w).

Definition observe_array (o : array_observer) (w : World) : World :=
  let y := yBlock w in
  with_yBlock
    {| sys_children :=
         {| toArray := toArray (sys_children y);
            array_observers := array_observers (sys_children y) ++ [o] |};
       entries := entries y;
       map_observers := map_observers y |} w.

Definition observe_map (o : map_observer) (w : World) : World :=
  let y := yBlock w in
  with_yBlock
    {| sys_children := sys_children y;
       entries := entries y;
       map_observers := map_observers y ++ [o] |} w.

(** The callback given to [this.created.once]. *)
Definition attach (w : World) : World :=
  let w1 := assign_children (toArray (sys_children (yBlock w))) w in
  let w2 := observe_array SyncFromTarget w1 in
  observe_map SyncOnKey w2.

(** [this._onCreated.dispose()] and [this._onDeleted.dispose()]. *)
Definition _onCreated_dispose (w : World) : World :=
  unsubscribe SlotCreated OnceCreated w.

Definition _onDeleted_dispose (w : World) : World :=
  unsubscribe SlotDeleted OnceDeleted w.

Definition run_callback (s : slot_name) (payload : option string)
    (w : World) (cb : callback) : World :=
  match cb with
  | OnceCreated => _onCreated_dispose (attach w)
  | OnceDeleted => _onDeleted_dispose (_onCreated_dispose w)
  | Listener l => notify (Delivered s l payload) w
  end.

Definition emit (s : slot_name) (payload : option string) (w : World) : World :=
  fold_left (run_callback s payload) (_callbacks (slot_of s (this w))) w.

(** [dispose()] *)
Definition dispose (w : World) : World :=
  let m := this w in
  with_this
    {| id := id m; flavour := flavour m; _children := _children m;
       created := Slot_dispose (created m);
       deleted := Slot_dispose (deleted m);
       propsUpdated := Slot_dispose (propsUpdated m) |} w.

(** [[Symbol.dispose]()] *)
Definition symbol_dispose (w : World) : World :=
  _onDeleted_dispose (_onCreated_dispose w).

(** ** Mutations of the backing record *)

Definition run_array_observer (target : YArray) (w : World)
    (o : array_observer) : World :=
  match o with
  | SyncFromTarget => assign_children (toArray target) w
  | ArrayForeign _ => w
  end.

Definition run_map_observer (keysChanged : gset string) (w : World)
    (o : map_observer) : World :=
  match o with
  | SyncOnKey =>
      if bool_decide ("sys:children" ∈ keysChanged)
      then assign_children (toArray (sys_children (yBlock w))) w
      else w
  | MapForeign _ => w
  end.

(** An edit in place of the current child-id array: the object stays, its
    content becomes [content'], its observers are called with it as target. *)
Definition edit_children (content' : list string) (w : World) : World :=
  let y := yBlock w in
  let target :=
    {| toArray := content';
       array_observers := array_observers (sys_children y) |} in
  let w' :=
    with_yBlock
      {| sys_children := target; entries := entries y;
         map_observers := map_observers y |} w in
  fold_left (run_array_observer target) (array_observers target) w'.

(** [yBlock.get('sys:children').insert(index, content)]; past the end the
    library throws and nothing changes. *)
Definition yarray_insert (index : nat) (content : list string) (w : World)
  : World :=
  let old := toArray (sys_children (yBlock w)) in
  if Nat.leb index (length old)
  then edit_children (take index old ++ content ++ drop index old) w
  else w.

(** [yBlock.get('sys:children').delete(index, len)]. *)
Definition yarray_delete (index len : nat) (w : World) : World :=
  let old := toArray (sys_children (yBlock w)) in
  if Nat.leb (index + len) (length old)
  then edit_children (take index old ++ drop (index + len) old) w
  else w.

(** [yBlock.set('sys:children', fresh)] where [fresh] is a new array
    holding [content]. *)
Definition yblock_set_children (content : list string) (w : World) : World :=
  let y := yBlock w in
  let fresh := {| toArray := content; array_observers := [] |} in
  let w' :=
    with_yBlock
      {| sys_children := fresh; entries := entries y;
         map_observers := map_observers y |} w in
  fold_left (run_map_observer {["sys:children"]}) (map_observers y) w'.

(** [yBlock.set(key, value)] for every other key. *)
Definition yblock_set (key value : string) (w : World) : World :=
  if decide (key = "sys:children") then w
  else
    let y := yBlock w in
    let w' :=
      with_yBlock
        {| sys_children := sys_children y;
           entries := <[key := value]> (entries y);
           map_observers := map_observers y |} w in
    fold_left (run_map_observer {[key]}) (map_observers y) w'.

(** ** Histories *)

Inductive op :=
  | Emit (s : slot_name) (payload : option string)
  | Subscribe (s : slot_name) (l : nat)
  | Dispose
  | SymbolDispose
  | YInsert (index : nat) (content : list string)
  | YDelete (index len : nat)
  | YSetChildren (content : list string)
  | YSet (key value : string).

Definition step (w : World) (o : op) : World :=
  match o with
  | Emit s payload => emit s payload w
  | Subscribe s l =>
      with_this (with_slot s (Slot_on (Listener l) (slot_of s (this w))) (this w)) w
  | Dispose => dispose w
  | SymbolDispose => symbol_dispose w
  | YInsert index content => yarray_insert index content w
  | YDelete index len => yarray_delete index len w
  | YSetChildren content => yblock_set_children content w
  | YSet key value => yblock_set key value w
  end.

Definition run (ops : list op) (w : World) : World := fold_left step ops w.

(** A node fresh from the constructor, over its backing record. *)
Definition fresh_world (i fl : string) (y : YBlock) : World :=
  {| this := new_BlockModel i fl; yBlock := y; notifications := [] |}.

(** The stored ids follow the record. *)
Definition in_sync (w : World) : Prop :=
  _children (this w) = toArray (sys_children (yBlock w)).

Definition is_children_changed (n : notification) : bool :=
  match n with ChildrenChanged _ => true | Delivered _ _ _ => false end.

Definition is_delivered (n : notification) : bool :=
  match n with Delivered _ _ _ => true | ChildrenChanged _ => false end.

(** The record of the examples: child ids [a], [b], nobody observing. *)
Definition y_ab : YBlock :=
  {| sys_children := {| toArray := ["a"; "b"]; array_observers := [] |};
     entries := ∅; map_observers := [] |}.

(** ** Trees of nodes *)

(** The children tree below a node is finite and acyclic: every descent
    through [children] ends. *)
Inductive finite_tree (page : Blocks) : BlockModel -> Prop :=
  | finite_tree_node this :
      (forall c, c ∈ children page this -> finite_tree page c) ->
      finite_tree page this.

(** The same, with a bound on the depth, so that it can be computed. *)
Fixpoint depth_within (page : Blocks) (n : nat) (this : BlockModel) : bool :=
  match n with
  | O => false
  | S n' => forallb (depth_within page n') (children page this)
  end.

(** The spec's words for [lastChild]: the deepest last descendant, the
    node itself when it is a leaf. *)
Inductive deepest_last_descendant (page : Blocks)
  : BlockModel -> BlockModel -> Prop :=
  | deepest_leaf this :
      children page this = [] ->
      deepest_last_descendant page this this
  | deepest_below this c d :
      last (children page this) = Some c ->
      deepest_last_descendant page c d ->
      deepest_last_descendant page this d.

(** The chain A -> B -> C of the examples. *)
Definition node_C : BlockModel := new_BlockModel "c" "affine:paragraph".
Definition node_B : BlockModel :=
  with_children ["c"] (new_BlockModel "b" "affine:list").
Definition node_A : BlockModel :=
  with_children ["b"] (new_BlockModel "a" "affine:note").
Definition page_ABC : Blocks :=
  <["a" := node_A]> (<["b" := node_B]> (<["c" := node_C]> ∅)).

(** A node whose ids are [a], [b] in a document that only has [a]. *)
Definition node_ab : BlockModel :=
  with_children ["a"; "b"] (new_BlockModel "n" "affine:note").
Definition page_a : Blocks := <["a" := node_C]> ∅.

(** How often [x] occurs in [l]. *)
Definition occurrences {A} `{EqDecision A} (x : A) (l : list A) : nat :=
  length (filter (fun y => y = x) l).

(** What a listener of a slot has been told so far. *)
Definition delivered (w : World) : list notification :=
  filter (fun n => is_delivered n = true) (notifications w).

(** What the dependents of the signal have been told so far. *)
Definition announced (w : World) : list notification :=
  filter (fun n => is_children_changed n = true) (notifications w).

(** [w'] differs from [w] at most in the signal and its announcements. *)
Definition same_but_children (w w' : World) : Prop :=
  yBlock w' = yBlock w /\
  (forall s, slot_of s (this w') = slot_of s (this w)) /\
  delivered w' = delivered w.

(** ** Predicates on worlds and histories *)


(** An edit of the record that keeps its child-id array object. *)
Definition keeps_array (o : op) : bool :=
  match o with
  | YInsert _ _ | YDelete _ _ | YSet _ _ => true
  | _ => false
  end.


(** The node has no observer on its record. *)
Definition unobserved (w : World) : Prop :=
  (SyncFromTarget ∉ array_observers (sys_children (yBlock w))) /\
  (SyncOnKey ∉ map_observers (yBlock w)).

(** The node observes the current child-id array. *)
Definition observing_array (w : World) : Prop :=
  SyncFromTarget ∈ array_observers (sys_children (yBlock w)).

(** How many times the node has put its observer on the record. *)
Definition registrations (w : World) : nat :=
  occurrences SyncOnKey (map_observers (yBlock w)).

(** The node of the examples once [created] has fired. *)
Definition world_created : World :=
  emit SlotCreated None (fresh_world "n" "affine:note" y_ab).

(** A document in which [x] and [y] resolve. *)
Definition node_x : BlockModel := new_BlockModel "x" "affine:paragraph".
Definition node_y : BlockModel := new_BlockModel "y" "affine:paragraph".
Definition page_xy : Blocks := <["x" := node_x]> (<["y" := node_y]> ∅).

(** What every history keeps true of a node whose record had [c0]
    observers of the node's kind to begin with: the one-shot handler and
    the observer it registers never add up to more than one, and the
    handler sits in no slot but [created]. *)
Definition attach_invariant (c0 : nat) (w : World) : Prop :=
  occurrences OnceCreated (_callbacks (created (this w))) + registrations w
    <= c0 + 1 /\
  c0 <= registrations w /\
  (OnceCreated ∉ _callbacks (deleted (this w))) /\
  (OnceCreated ∉ _callbacks (propsUpdated (this w))).

(** ** Steps through the tree, kinds of operations *)

(** [b] is a resolved child of [a]. *)
Definition child_step (page : Blocks) (a b : BlockModel) : Prop :=
  b ∈ children page a.

(** [b] is the last resolved child of [a]: the step [lastChild] takes. *)
Definition last_child_step (page : Blocks) (a b : BlockModel) : Prop :=
  last (children page a) = Some b.

(** A node that is its own only child in the index. *)
Definition node_loop : BlockModel :=
  with_children ["l"] (new_BlockModel "l" "affine:note").
Definition page_loop : Blocks := <["l" := node_loop]> ∅.

(** A node that stores the id [a] twice, around [b]. *)
Definition node_aba : BlockModel :=
  with_children ["a"; "b"; "a"] (new_BlockModel "n" "affine:note").

Definition is_emit_created (o : op) : bool :=
  match o with Emit SlotCreated _ => true | _ => false end.

(** The entry ['sys:children'] of the record is set anew. *)
Definition is_replacement (o : op) : bool :=
  match o with YSetChildren _ => true | _ => false end.

(** The three ways to tear a node down: firing [deleted], [dispose()] and
    [[Symbol.dispose]()]. *)
Definition is_teardown (o : op) : bool :=
  match o with
  | Emit SlotDeleted _ | Dispose | SymbolDispose => true
  | _ => false
  end.

(** The subscribers of a slot that come from outside the class. *)
Definition listener_of (cb : callback) : option nat :=
  match cb with Listener l => Some l | _ => None end.

Definition listeners (s : slot_name) (w : World) : list nat :=
  omap listener_of (_callbacks (slot_of s (this w))).

(** The one-shot handler of [created] sits in no slot. *)
Definition attach_cancelled (w : World) : Prop :=
  forall s, OnceCreated ∉ _callbacks (slot_of s (this w)).

(** The node has never been attached: nothing stored, nothing announced,
    no observer on the record, and its handler in no slot but [created]. *)
Definition detached (w : World) : Prop :=
  unobserved w /\
  _children (this w) = [] /\
  announced w = [] /\
  (OnceCreated ∉ _callbacks (deleted (this w))) /\
  (OnceCreated ∉ _callbacks (propsUpdated (this w))).

(** A mutation of the backing record, as opposed to a call on the node. *)
Definition is_mutation (o : op) : bool :=
  match o with
  | YInsert _ _ | YDelete _ _ | YSetChildren _ | YSet _ _ => true
  | _ => false
  end.

(** * UserModel: accounts over the database

    The class [UserModel] that shares a source file with the view
    extension.  Its methods are embedded up to their call into the
    database: a method ends in the row it returns without writing, in the
    write it asks the database for, or in the error it throws. *)

Module UserModel.

(** The values held by the objects the class handles. *)
Inductive value :=
  | VUndefined
  | VNull
  | VBool (b : bool)
  | VString (s : string)
  | VDate (t : Z)
  | VObject (n : nat).       (* any other object, by identity *)

Global Instance value_eq_dec : EqDecision value.
Proof. solve_decision. Defined.

(** A JS object: own keys and their values. *)
Abbreviation Object := (gmap string value).

(** [o.k] *)
Definition get (o : Object) (k : string) : value :=
  match o !! k with
  | Some v => v
  | None => VUndefined
  end.

(** What [if (v)] takes for true. *)
Definition truthy (v : value) : bool :=
  match v with
  | VUndefined | VNull => false
  | VBool b => b
  | VString s => negb (String.eqb s "")
  | VDate _ | VObject _ => true
  end.

(** [{...a, ...b}]: the keys of [b] win. *)
Definition spread (a b : Object) : Object := b ∪ a.

Inductive error :=
  | WrongSignInCredentials (email : string)
  | WrongSignInMethod
  | EmailAlreadyUsed
  | TypeError.

(** How a method ends.  After [Create] and [Update] the method emits the
    event [user.created] / [user.updated] with the row the database hands
    back and returns that row. *)
Inductive outcome :=
  | Throw (e : error)
  | Return (user : Object)
  | Create (data : Object)                   (* [db.user.create({ data })] *)
  | Update (id : value) (data : Object).     (* [db.user.update({ where: { id }, data })] *)

(** What the constructor injects, as far as these methods use it: the
    rows of the table [users] as the queries return them, the database's
    [lower], the two functions of the crypto helper, and the clock behind
    [new Date()]. *)
Record Services := {
  users : list Object;
  lower : string -> string;
  verifyPassword : string -> string -> bool;
  encryptPassword : string -> string;
  now : Z;
}.

(** [WHERE lower("email") = lower(${email})] *)
Definition email_matches (sv : Services) (email : string) (row : Object)
  : bool :=
  match row !! "email" with
  | Some (VString e) => String.eqb (lower sv e) (lower sv email)
  | _ => false
  end.

(** The columns of a row of the raw query of [getUserByEmail], under the
    names the database gives them: the aliases [emailVerifiedAt],
    [avatarUrl] and [createdAt] are not quoted in the query, and the
    database folds an unquoted name to lower case. *)
Definition query_columns : list string :=
  ["id"; "name"; "email"; "password"; "registered"; "emailverifiedat";
   "avatarurl"; "createdat"].

(** A row as that query returns it. *)
Definition query_shaped (row : Object) : Prop :=
  dom row ⊆ list_to_set query_columns.

(** [getUserByEmail]: [rows[0] ?? null] *)
Definition getUserByEmail (sv : Services) (email : string) : option Object :=
  head (List.filter (email_matches sv email) (users sv)).

(** [signIn] *)
Definition signIn (sv : Services) (email password : string) : outcome :=
  match getUserByEmail sv email with
  | None => Throw (WrongSignInCredentials email)
  | Some user =>
      match get user "password" with
      | VString hash =>
          if negb (truthy (VString hash)) then Throw WrongSignInMethod
          else if negb (verifyPassword sv password hash)
               then Throw (WrongSignInCredentials email)
               else Return user
      | _ => Throw WrongSignInMethod       (* the column is a string or null *)
      end
  end.

(** [Object.keys(publicUserSelect)] *)
Definition publicUserSelect : list string :=
  ["id"; "name"; "email"; "avatarUrl"].

(** [toPublicUser]: [pick(user, Object.keys(publicUserSelect))] *)
Definition toPublicUser (user : Object) : Object :=
  filter (fun kv => kv.1 ∈ publicUserSelect) user.

(** [defaultUserCreatingData]; its [features] entry is one fixed object. *)
Definition defaultUserCreatingData : Object :=
  <["name" := VString "Unnamed"]> (<["features" := VObject 0]> ∅).

(** The character [@]. *)
Definition at_sign : Ascii.ascii := Ascii.ascii_of_nat 64.

(** [s.split('@')[0]]: what comes before the first [@]. *)
Fixpoint before_at (s : string) : string :=
  match s with
  | EmptyString => EmptyString
  | String c s' =>
      if Ascii.eqb c at_sign then EmptyString else String c (before_at s')
  end.

(** [if (data.password) data.password = await encryptPassword(data.password)];
    the declared type has the password a string, null or undefined. *)
Definition encrypt_given_password (sv : Services) (data : Object) : Object :=
  match get data "password" with
  | VString p =>
      if truthy (VString p)
      then <["password" := VString (encryptPassword sv p)]> data
      else data
  | _ => data
  end.

(** [create]; [data.email] is a string by the declared type, and [split]
    on anything else is a TypeError. *)
Definition create (sv : Services) (data : Object) : outcome :=
  match get data "email" with
  | VString email =>
      match getUserByEmail sv email with
      | Some _ => Throw EmailAlreadyUsed
      | None =>
          let data1 := encrypt_given_password sv data in
          let data2 :=
            if negb (truthy (get data1 "name"))
            then <["name" := VString (before_at email)]> data1
            else data1 in
          Create (spread defaultUserCreatingData data2)
      end
  | _ => Throw TypeError
  end.

(** [update] *)
Definition update (sv : Services) (id : value) (data : Object) : outcome :=
  let data1 := encrypt_given_password sv data in
  let taken :=
    match get data1 "email" with
    | VString email =>
        if truthy (VString email)
        then
          match getUserByEmail sv email with
          | Some user => negb (bool_decide (get user "id" = id))
          | None => false
          end
        else false
    | _ => false
    end in
  if taken then Throw EmailAlreadyUsed else Update id data1.

(** [fulfill] *)
Definition fulfill (sv : Services) (email : string) (data : Object) : outcome :=
  match getUserByEmail sv email with
  | None =>
      create sv
        (spread
           (<["email" := VString email]>
              (<["registered" := VBool true]>
                 (<["emailVerifiedAt" := VDate (now sv)]> ∅)))
           data)
  | Some user =>
      let data1 :=
        if truthy (get user "registered")
        then delete "registered" data
        else <["registered" := VBool true]> data in
      let data2 :=
        if truthy (get user "emailVerifiedAt")
        then delete "emailVerifiedAt" data1
        else <["emailVerifiedAt" := VDate (now sv)]> data1 in
      if negb (Nat.eqb (size data2) 0)
      then update sv (get user "id") data2
      else Return user
  end.

(** Rows and services of the examples, as the raw query returns them: one
    account with a password, one without, and a crypto helper that
    prefixes [h:]. *)
Definition row_ann : Object :=
  <["id" := VString "u1"]> (<["name" := VString "Ann"]>
  (<["email" := VString "Ann@x.org"]> (<["password" := VString "h:secret"]>
  (<["registered" := VBool true]> (<["emailverifiedat" := VDate 5]> ∅))))).

Definition row_bob : Object :=
  <["id" := VString "u2"]> (<["name" := VString "bob"]>
  (<["email" := VString "bob@x.org"]> (<["password" := VNull]>
  (<["registered" := VBool false]> (<["emailverifiedat" := VNull]> ∅))))).

Definition ascii_lower (c : Ascii.ascii) : Ascii.ascii :=
  let n := Ascii.nat_of_ascii c in
  if (Nat.leb 65 n && Nat.leb n 90)%bool then Ascii.ascii_of_nat (n + 32) else c.

Fixpoint string_lower (s : string) : string :=
  match s with
  | EmptyString => EmptyString
  | String c s' => String (ascii_lower c) (string_lower s')
  end.

Definition services_xy : Services :=
  {| users := [row_ann; row_bob];
     lower := string_lower;
     verifyPassword := fun p h => String.eqb (String.append "h:" p) h;
     encryptPassword := fun p => String.append "h:" p;
     now := 9 |}.

(** The services once the database has stored [row] in the table. *)
Definition with_row (row : Object) (sv : Services) : Services :=
  {| users := users sv ++ [row];
     lower := lower sv;
     verifyPassword := verifyPassword sv;
     encryptPassword := encryptPassword sv;
     now := now sv |}.

(** The row the database of the examples makes of the data of [create]. *)
Definition row_zed : Object :=
  <["id" := VString "u3"]> (<["name" := VString "zed"]>
  (<["email" := VString "zed@x.org"]> (<["password" := VString "h:pw"]>
  (<["registered" := VBool true]> ∅)))).

End UserModel.

(** * Properties of the derived values *)

Section DerivedFacts.
Variable page : Blocks.

Lemma fold_push_omap (ids : list string) (value : list BlockModel) :
  fold_left
    (fun value i =>
       match getBlock page i with
       | Some block => value ++ [block]
       | None => value
       end) ids value
  = value ++ omap (getBlock page) ids.
Proof.
  revert value. induction ids as [|i ids IH]; intros value; simpl.
  - by rewrite app_nil_r.
  - rewrite IH. destruct (getBlock page i) as [b|]; [|done].
    by rewrite <- app_assoc.
Qed.

Lemma children_omap (this : BlockModel) :
  children page this = omap (getBlock page) (_children this).
Proof. unfold children, _childModels. by rewrite fold_push_omap. Qed.

Lemma children_elem (this c : BlockModel) :
  c ∈ children page this <->
  exists i, i ∈ _children this /\ page !! i = Some c.
Proof. rewrite children_omap. apply list_elem_of_omap. Qed.

Lemma last_lookup_length {A} (l : list A) :
  l !! (length l - 1) = last l.
Proof.
  rewrite last_lookup. f_equal. destruct l; simpl; lia.
Qed.

Lemma lastChild_unfold (fuel : nat) (this : BlockModel) :
  lastChild page (S fuel) this =
  match last (children page this) with
  | None => Returned (Some this)
  | Some c => lastChild page fuel c
  end.
Proof.
  simpl. rewrite last_lookup_length.
  destruct (children page this) as [|c cs] eqn:E; [done|].
  simpl Nat.eqb. cbv iota.
  destruct (last (c :: cs)) eqn:El; [done|].
  by apply last_None in El.
Qed.

Lemma lastChild_mono (fuel fuel' : nat) (this : BlockModel) r :
  fuel <= fuel' ->
  lastChild page fuel this = Returned r ->
  lastChild page fuel' this = Returned r.
Proof.
  revert fuel' this. induction fuel as [|fuel IH]; intros fuel' this Hle H.
  - discriminate.
  - destruct fuel' as [|fuel']; [lia|].
    rewrite lastChild_unfold in *.
    destruct (last (children page this)); [|done].
    apply IH; [lia|done].
Qed.

Lemma lastChild_not_null (fuel : nat) (this : BlockModel) :
  lastChild page fuel this <> Returned None /\
  lastChild page fuel this <> Thrown.
Proof.
  revert this. induction fuel as [|fuel IH]; intros this.
  - by split.
  - rewrite lastChild_unfold.
    destruct (last (children page this)); [apply IH|by split].
Qed.

Lemma lastChild_sound (fuel : nat) (this d : BlockModel) :
  lastChild page fuel this = Returned (Some d) ->
  deepest_last_descendant page this d.
Proof.
  revert this. induction fuel as [|fuel IH]; intros this H; [done|].
  rewrite lastChild_unfold in H.
  destruct (last (children page this)) as [c|] eqn:El.
  - eapply deepest_below; eauto.
  - injection H as <-. apply deepest_leaf. by apply last_None.
Qed.

Lemma lastChild_complete (this d : BlockModel) :
  deepest_last_descendant page this d ->
  exists fuel, lastChild page fuel this = Returned (Some d).
Proof.
  induction 1 as [this E|this c d El _ [fuel IH]].
  - exists 1. rewrite lastChild_unfold, E. done.
  - exists (S fuel). by rewrite lastChild_unfold, El.
Qed.

Lemma depth_within_finite (n : nat) (this : BlockModel) :
  depth_within page n this = true -> finite_tree page this.
Proof.
  revert this. induction n as [|n IH]; intros this H; [done|].
  constructor. intros c Hc. apply IH.
  simpl in H. rewrite forallb_forall in H. apply H.
  by apply list_elem_of_In.
Qed.
End DerivedFacts.

(** ** The index map *)

Section ChildMap.
Lemma reduce_lookup_notin (l : list string) (n : nat)
    (acc : gmap string nat) (k : string) :
  k ∉ l -> reduce set_index l n acc !! k = acc !! k.
Proof.
  revert n acc. induction l as [|x l IH]; intros n acc Hk; [done|].
  simpl. apply not_elem_of_cons in Hk as [Hne Hk].
  rewrite IH by done. unfold set_index. by rewrite lookup_insert_ne.
Qed.

Lemma reduce_lookup_NoDup (l : list string) (n : nat)
    (acc : gmap string nat) (i : nat) (k : string) :
  NoDup l -> l !! i = Some k ->
  reduce set_index l n acc !! k = Some (n + i).
Proof.
  revert n acc i. induction l as [|x l IH]; intros n acc i Hnd Hi; [done|].
  apply NoDup_cons in Hnd as [Hx Hnd]. destruct i as [|i]; simpl in *.
  - injection Hi as ->. rewrite reduce_lookup_notin by done.
    unfold set_index. rewrite lookup_insert_eq. f_equal. lia.
  - rewrite (IH _ _ i) by done. f_equal. lia.
Qed.

Lemma reduce_keys (l : list string) (n : nat) (acc : gmap string nat)
    (k : string) :
  is_Some (reduce set_index l n acc !! k) <-> k ∈ l \/ is_Some (acc !! k).
Proof.
  revert n acc. induction l as [|x l IH]; intros n acc; simpl.
  - split; [by right|]. intros [H|H]; [by apply elem_of_nil in H|done].
  - rewrite IH, elem_of_cons. unfold set_index.
    destruct (decide (x = k)) as [->|Hne].
    + rewrite lookup_insert_eq. split; [by left; left|by right].
    + rewrite lookup_insert_ne by done. split.
      * intros [Hk|Hk]; [by left; right|by right].
      * intros [[Hk|Hk]|Hk]; [congruence|by left|by right].
Qed.
End ChildMap.

(** * Main results on the derived values *)

(** C4: [children] resolves the stored ids through the document index, in
    order, and leaves out every id that does not resolve; no outcome of the
    read is an error.  With ids [a], [b] and [b] absent from the index, the
    result has length 1 and holds the node of [a]. *)
Theorem children_skips_unresolved (page : Blocks) (this na : BlockModel) :
  _children this = ["a"; "b"] ->
  page !! "a" = Some na ->
  page !! "b" = None ->
  children page this = [na] /\
  length (children page this) = 1 /\
  forall (page' : Blocks) (that : BlockModel),
    children page' that = omap (getBlock page') (_children that) /\
    forall c, c ∈ children page' that <->
              exists i, i ∈ _children that /\ page' !! i = Some c.
Proof.
  intros Hids Ha Hb.
  assert (children page this = [na]) as E.
  { rewrite children_omap, Hids. simpl. unfold getBlock. by rewrite Ha, Hb. }
  rewrite E. repeat split; try done.
  - apply children_omap.
  - apply children_elem.
  - apply children_elem.
Qed.

Lemma children_skips_unresolved_witness :
  children page_a node_ab = [node_C] /\ length (children page_a node_ab) = 1.
Proof.
  destruct (children_skips_unresolved page_a node_ab node_C) as (H1 & H2 & _).
  - reflexivity.
  - vm_compute. reflexivity.
  - vm_compute. reflexivity.
  - split; [exact H1 | exact H2].
Defined.

(** C5: [lastChild()] returns the deepest last descendant: the calls that
    return are exactly those to a node with such a descendant, and they
    return it.  On a node without resolved children it returns the node
    itself; on a chain A -> B -> C with C childless it returns C. *)
Theorem lastChild_deepest (page : Blocks) :
  (forall this d,
      deepest_last_descendant page this d <->
      exists fuel, lastChild page fuel this = Returned (Some d)) /\
  (forall this fuel,
      children page this = [] ->
      lastChild page (S fuel) this = Returned (Some this)) /\
  (forall A B C fuel,
      last (children page A) = Some B ->
      last (children page B) = Some C ->
      children page C = [] ->
      lastChild page (3 + fuel) A = Returned (Some C)).
Proof.
  split; [|split].
  - intros this d. split.
    + apply lastChild_complete.
    + intros [fuel H]. by eapply lastChild_sound.
  - intros this fuel E. by rewrite lastChild_unfold, E.
  - intros A B C fuel HA HB HC.
    change (3 + fuel) with (S (S (S fuel))).
    by rewrite lastChild_unfold, HA, lastChild_unfold, HB, lastChild_unfold, HC.
Qed.

Lemma lastChild_deepest_witness :
  lastChild page_ABC 3 node_A = Returned (Some node_C) /\
  lastChild page_ABC 1 node_C = Returned (Some node_C).
Proof.
  destruct (lastChild_deepest page_ABC) as (_ & Hleaf & Hchain). split.
  - apply (Hchain node_A node_B node_C 0); vm_compute; reflexivity.
  - apply (Hleaf node_C 0). vm_compute. reflexivity.
Defined.

(** C6: [isEmpty()] is true if and only if the resolved [children] list is
    empty; in particular a list of length 0 gives true. *)
Theorem isEmpty_iff_no_children (page : Blocks) (this : BlockModel) :
  (isEmpty page this = true <-> children page this = []) /\
  (length (children page this) = 0 -> isEmpty page this = true).
Proof.
  unfold isEmpty. split.
  - rewrite Nat.eqb_eq. apply length_zero_iff_nil.
  - intros ->. done.
Qed.

Lemma isEmpty_iff_no_children_witness :
  isEmpty page_ABC node_C = true.
Proof.
  apply (proj2 (isEmpty_iff_no_children page_ABC node_C)).
  vm_compute. reflexivity.
Defined.

(** C7: [firstChild()] returns null on a node without resolved children and
    the first resolved child otherwise. *)
Theorem firstChild_spec (page : Blocks) (this : BlockModel) :
  (children page this = [] -> firstChild page this = None) /\
  (forall c cs, children page this = c :: cs -> firstChild page this = Some c).
Proof.
  unfold firstChild. split.
  - intros ->. done.
  - intros c cs ->. done.
Qed.

Lemma firstChild_spec_witness :
  firstChild page_ABC node_C = None /\
  firstChild page_ABC node_A = Some node_B.
Proof.
  split.
  - apply (proj1 (firstChild_spec page_ABC node_C)). vm_compute. reflexivity.
  - apply (proj2 (firstChild_spec page_ABC node_A) node_B []).
    vm_compute. reflexivity.
Defined.

(** C8: when the stored child ids are pairwise distinct, [childMap] sends
    the id at position [i] to [i], and its keys are exactly the stored
    ids. *)
Theorem childMap_index (this : BlockModel) :
  NoDup (_children this) ->
  (forall i k, _children this !! i = Some k -> childMap this !! k = Some i) /\
  (forall k, k ∈ dom (childMap this) <-> k ∈ _children this).
Proof.
  intros Hnd. unfold childMap. split.
  - intros i k Hi.
    by rewrite (reduce_lookup_NoDup _ _ _ i) by done.
  - intros k. rewrite elem_of_dom, reduce_keys, lookup_empty.
    split; [|by left]. intros [H|H]; [done|]. by destruct H.
Qed.

Lemma childMap_index_witness :
  childMap node_ab !! "a" = Some 0 /\ childMap node_ab !! "b" = Some 1.
Proof.
  assert (NoDup (_children node_ab)) as Hnd.
  { apply (bool_decide_unpack _). vm_compute. reflexivity. }
  destruct (childMap_index node_ab Hnd) as [H _]. split.
  - apply (H 0). reflexivity.
  - apply (H 1). reflexivity.
Defined.

(** C10: on a node whose children tree is finite and acyclic, [lastChild()]
    returns, and what it returns is a node, never null: the deepest last
    descendant of the node, which is the node itself when it has no
    resolved children; no amount of fuel makes it return null or throw. *)
Theorem lastChild_never_null (page : Blocks) (this : BlockModel) :
  finite_tree page this ->
  (exists fuel d,
      deepest_last_descendant page this d /\
      forall fuel', fuel <= fuel' ->
                    lastChild page fuel' this = Returned (Some d)) /\
  (children page this = [] ->
   forall fuel, lastChild page (S fuel) this = Returned (Some this)) /\
  (forall fuel, lastChild page fuel this <> Returned None /\
                lastChild page fuel this <> Thrown).
Proof.
  intros Hfin. split; [|split].
  - induction Hfin as [this _ IH].
    destruct (last (children page this)) as [c|] eqn:El.
    + destruct (IH c) as (fuel & d & Hdeep & Hd).
      { apply last_Some_elem_of in El. done. }
      exists (S fuel), d. split; [by eapply deepest_below|].
      intros fuel' Hle. destruct fuel' as [|fuel']; [lia|].
      rewrite lastChild_unfold, El. apply Hd. lia.
    + exists 1, this. split; [apply deepest_leaf; by apply last_None|].
      intros fuel' Hle. destruct fuel' as [|fuel']; [lia|].
      by rewrite lastChild_unfold, El.
  - intros E fuel. by rewrite lastChild_unfold, E.
  - intros fuel. apply lastChild_not_null.
Qed.

Lemma lastChild_never_null_witness :
  (exists fuel d,
      deepest_last_descendant page_ABC node_A d /\
      forall fuel', fuel <= fuel' ->
                    lastChild page_ABC fuel' node_A = Returned (Some d)) /\
  lastChild page_ABC 1 node_C = Returned (Some node_C).
Proof.
  split.
  - apply (lastChild_never_null page_ABC node_A).
    apply (depth_within_finite page_ABC 3). vm_compute. reflexivity.
  - apply (proj1 (proj2 (lastChild_never_null page_ABC node_C
                           (depth_within_finite page_ABC 1 node_C eq_refl)))).
    vm_compute. reflexivity.
Defined.

(** * Properties of the lifecycle *)

Lemma fold_left_preserves {A B} (P : A -> Prop) (f : A -> B -> A)
    (l : list B) (a : A) :
  (forall a x, P a -> P (f a x)) -> P a -> P (fold_left f l a).
Proof.
  intros Hf. revert a. induction l as [|x l IH]; intros a Ha; simpl; auto.
Qed.

Lemma same_but_children_refl w : same_but_children w w.
Proof. by repeat split. Qed.

Lemma assign_children_frame ids w w0 :
  same_but_children w0 w -> same_but_children w0 (assign_children ids w).
Proof.
  intros (Hy & Hs & Hd). repeat split.
  - done.
  - intros s. rewrite <- Hs. by destruct s.
  - rewrite <- Hd. unfold delivered, assign_children, notify. simpl.
    rewrite filter_app. simpl. rewrite filter_cons_False by done.
    by rewrite filter_nil, app_nil_r.
Qed.

Lemma array_observers_frame target l w w0 :
  same_but_children w0 w ->
  same_but_children w0 (fold_left (run_array_observer target) l w).
Proof.
  apply fold_left_preserves. intros a [|n] Ha; simpl; [|done].
  by apply assign_children_frame.
Qed.

Lemma map_observers_frame keys l w w0 :
  same_but_children w0 w ->
  same_but_children w0 (fold_left (run_map_observer keys) l w).
Proof.
  apply fold_left_preserves. intros a [|n] Ha; simpl; [|done].
  case_bool_decide; [|done]. by apply assign_children_frame.
Qed.

Lemma array_observers_foreign target l w :
  SyncFromTarget ∉ l -> fold_left (run_array_observer target) l w = w.
Proof.
  revert w. induction l as [|o l IH]; intros w Hl; [done|].
  apply not_elem_of_cons in Hl as [Ho Hl]. simpl.
  destruct o; [done|]. by apply IH.
Qed.

Lemma map_observers_foreign keys l w :
  SyncOnKey ∉ l -> fold_left (run_map_observer keys) l w = w.
Proof.
  revert w. induction l as [|o l IH]; intros w Hl; [done|].
  apply not_elem_of_cons in Hl as [Ho Hl]. simpl.
  destruct o; [done|]. by apply IH.
Qed.

(** An observer that syncs leaves the stored ids equal to what it read. *)
Lemma array_observers_sync target l w :
  SyncFromTarget ∈ l \/ _children (this w) = toArray target ->
  _children (this (fold_left (run_array_observer target) l w))
  = toArray target.
Proof.
  revert w. induction l as [|o l IH]; intros w H; simpl.
  - destruct H as [H|H]; [by apply elem_of_nil in H|done].
  - apply IH. destruct o; simpl.
    + by right.
    + destruct H as [H|H]; [|by right].
      apply elem_of_cons in H as [H|H]; [done|by left].
Qed.

Lemma map_observers_sync l w :
  SyncOnKey ∈ l \/ _children (this w) = toArray (sys_children (yBlock w)) ->
  _children (this (fold_left (run_map_observer {["sys:children"]}) l w))
  = toArray (sys_children (yBlock w)).
Proof.
  revert w. induction l as [|o l IH]; intros w H; simpl.
  - destruct H as [H|H]; [by apply elem_of_nil in H|done].
  - destruct o; simpl.
    + rewrite bool_decide_eq_true_2 by set_solver.
      rewrite IH; [done|]. by right.
    + apply IH. destruct H as [H|H]; [|by right].
      apply elem_of_cons in H as [H|H]; [done|by left].
Qed.

(** The mutations of the record and the slots. *)
Lemma edit_children_frame content' w :
  (forall s, slot_of s (this (edit_children content' w)) = slot_of s (this w)) /\
  delivered (edit_children content' w) = delivered w /\
  yBlock (edit_children content' w) =
    {| sys_children :=
         {| toArray := content';
            array_observers := array_observers (sys_children (yBlock w)) |};
       entries := entries (yBlock w);
       map_observers := map_observers (yBlock w) |}.
Proof.
  unfold edit_children.
  match goal with |- context [fold_left ?f ?l ?w0] =>
    destruct (array_observers_frame
                {| toArray := content';
                   array_observers := array_observers (sys_children (yBlock w)) |}
                l w0 w0 (same_but_children_refl w0)) as (Hy & Hs & Hd)
  end.
  simpl in *. repeat split.
  - intros s. by rewrite Hs.
  - by rewrite Hd.
  - by rewrite Hy.
Qed.

Lemma yblock_set_children_frame content w :
  (forall s, slot_of s (this (yblock_set_children content w))
             = slot_of s (this w)) /\
  delivered (yblock_set_children content w) = delivered w /\
  yBlock (yblock_set_children content w) =
    {| sys_children := {| toArray := content; array_observers := [] |};
       entries := entries (yBlock w);
       map_observers := map_observers (yBlock w) |}.
Proof.
  unfold yblock_set_children.
  match goal with |- context [fold_left ?f ?l ?w0] =>
    destruct (map_observers_frame {["sys:children"]} l w0 w0
                (same_but_children_refl w0)) as (Hy & Hs & Hd)
  end.
  simpl in *. repeat split.
  - intros s. by rewrite Hs.
  - by rewrite Hd.
  - by rewrite Hy.
Qed.

Lemma yblock_set_frame key value w :
  (forall s, slot_of s (this (yblock_set key value w)) = slot_of s (this w)) /\
  delivered (yblock_set key value w) = delivered w /\
  sys_children (yBlock (yblock_set key value w)) = sys_children (yBlock w) /\
  map_observers (yBlock (yblock_set key value w)) = map_observers (yBlock w).
Proof.
  unfold yblock_set. case_decide; [done|].
  match goal with |- context [fold_left ?f ?l ?w0] =>
    destruct (map_observers_frame {[key]} l w0 w0
                (same_but_children_refl w0)) as (Hy & Hs & Hd)
  end.
  simpl in *. repeat split.
  - intros s. by rewrite Hs.
  - by rewrite Hd.
  - by rewrite Hy.
  - by rewrite Hy.
Qed.

Lemma map_observers_other_key keys l w :
  "sys:children" ∉ keys -> fold_left (run_map_observer keys) l w = w.
Proof.
  intros Hk. revert w. induction l as [|o l IH]; intros w; [done|].
  simpl. destruct o; simpl; [|done].
  by rewrite bool_decide_eq_false_2.
Qed.


Lemma attach_in_sync w :
  in_sync (attach w) /\ observing_array (attach w) /\
  SyncOnKey ∈ map_observers (yBlock (attach w)).
Proof.
  unfold in_sync, observing_array, attach. simpl.
  repeat split; set_solver.
Qed.

Lemma edit_children_in_sync content' w :
  observing_array w ->
  in_sync (edit_children content' w) /\
  observing_array (edit_children content' w).
Proof.
  unfold in_sync, observing_array. intros Hobs.
  destruct (edit_children_frame content' w) as (_ & _ & ->). simpl.
  split; [|done]. unfold edit_children.
  rewrite array_observers_sync; [done|by left].
Qed.

Lemma yblock_set_children_in_sync content w :
  SyncOnKey ∈ map_observers (yBlock w) ->
  in_sync (yblock_set_children content w).
Proof.
  unfold in_sync. intros Hobs.
  destruct (yblock_set_children_frame content w) as (_ & _ & ->). simpl.
  unfold yblock_set_children.
  rewrite map_observers_sync; [done|by left].
Qed.

Lemma yblock_set_in_sync key value w :
  in_sync w -> observing_array w ->
  in_sync (yblock_set key value w) /\ observing_array (yblock_set key value w).
Proof.
  unfold in_sync, observing_array, yblock_set. intros Hs Ho.
  case_decide; [done|].
  rewrite map_observers_other_key by set_solver. done.
Qed.

(** As long as the record keeps its child-id array object, the stored ids
    follow every edit of it. *)
Lemma in_sync_while_array_kept (ops : list op) (w : World) :
  forallb keeps_array ops = true ->
  in_sync w -> observing_array w ->
  in_sync (run ops w) /\ observing_array (run ops w).
Proof.
  revert w. induction ops as [|o ops IH]; intros w Hops Hs Ho; [done|].
  simpl in Hops. apply andb_true_iff in Hops as [Hk Hops].
  unfold run. simpl. apply IH; [done|..]; destruct o; try discriminate; simpl.
  - unfold yarray_insert. case_match; [|done].
    by apply edit_children_in_sync.
  - unfold yarray_delete. case_match; [|done].
    by apply edit_children_in_sync.
  - by apply yblock_set_in_sync.
  - unfold yarray_insert. case_match; [|done].
    by apply edit_children_in_sync.
  - unfold yarray_delete. case_match; [|done].
    by apply edit_children_in_sync.
  - by apply yblock_set_in_sync.
Qed.




(** * Main results on the lifecycle *)

(** C1, at the input where it fails: [created] fires, the entry
    ['sys:children'] of the record is set to a fresh array holding [x], and
    that array then gets [y].  The record's list is [x], [y]; the node
    still stores [x] and resolves one child, because the array observer
    sits on the array that was replaced. *)
Theorem children_stale_after_replacement :
  let w := run [Emit SlotCreated None; YSetChildren ["x"]; YInsert 1 ["y"]]
               (fresh_world "n" "affine:note" y_ab) in
  toArray (sys_children (yBlock w)) = ["x"; "y"] /\
  _children (this w) = ["x"] /\
  children page_xy (this w) = [node_x] /\
  omap (getBlock page_xy) (toArray (sys_children (yBlock w)))
    = [node_x; node_y] /\
  ~ in_sync w.
Proof. vm_compute. repeat split; try reflexivity. discriminate. Qed.




(** C9: [dispose()] can be repeated: it is a total function of the state,
    and every further call leaves the state of the first call. *)
Theorem dispose_idempotent (w : World) (n : nat) :
  dispose (dispose w) = dispose w /\
  Nat.iter (S n) dispose w = dispose w.
Proof.
  assert (dispose (dispose w) = dispose w) as H by reflexivity.
  split; [exact H|].
  induction n as [|n IH]; [reflexivity|].
  change (Nat.iter (S (S n)) dispose w)
    with (dispose (Nat.iter (S n) dispose w)).
  by rewrite IH.
Qed.

(** ** Counting subscriptions *)

Section Occurrences.
Context {A : Type} `{EqDecision A}.
Implicit Types (x y : A) (l : list A).

Lemma occurrences_nil x : occurrences x [] = 0.
Proof. reflexivity. Qed.

Lemma occurrences_cons_eq x l :
  occurrences x (x :: l) = S (occurrences x l).
Proof. unfold occurrences. by rewrite filter_cons_True. Qed.

Lemma occurrences_cons_ne x y l :
  y <> x -> occurrences x (y :: l) = occurrences x l.
Proof. intros. unfold occurrences. by rewrite filter_cons_False. Qed.

Lemma occurrences_app x l1 l2 :
  occurrences x (l1 ++ l2) = occurrences x l1 + occurrences x l2.
Proof. unfold occurrences. by rewrite filter_app, length_app. Qed.

Lemma occurrences_notin x l : x ∉ l -> occurrences x l = 0.
Proof.
  induction l as [|y l IH]; intros H; [done|].
  apply not_elem_of_cons in H as [Hne H].
  rewrite occurrences_cons_ne by done. by apply IH.
Qed.

Lemma not_elem_of_filter_ne x l : x ∉ filter (fun c => c <> x) l.
Proof. rewrite list_elem_of_filter. by intros [H _]. Qed.

Lemma not_elem_of_filter_sub x (P : A -> Prop) `{forall a, Decision (P a)} l :
  x ∉ l -> x ∉ filter P l.
Proof. rewrite list_elem_of_filter. by intros H1 [_ H2]. Qed.
End Occurrences.

(** ** Firing [created] *)

Lemma run_callback_other s payload w cb :
  cb <> OnceCreated ->
  yBlock (run_callback s payload w cb) = yBlock w /\
  _children (this (run_callback s payload w cb)) = _children (this w) /\
  announced (run_callback s payload w cb) = announced w /\
  (OnceCreated ∉ _callbacks (created (this w)) ->
   OnceCreated ∉ _callbacks (created (this (run_callback s payload w cb)))).
Proof.
  intros Hcb. destruct cb as [| |l]; [done|..]; simpl.
  - repeat split; try done. intros _. apply not_elem_of_filter_ne.
  - repeat split; try done.
    unfold announced. simpl. rewrite filter_app. simpl.
    rewrite filter_cons_False by done. by rewrite filter_nil, app_nil_r.
Qed.

Lemma callbacks_other s payload l w :
  OnceCreated ∉ l ->
  let w' := fold_left (run_callback s payload) l w in
  yBlock w' = yBlock w /\
  _children (this w') = _children (this w) /\
  announced w' = announced w /\
  (OnceCreated ∉ _callbacks (created (this w)) ->
   OnceCreated ∉ _callbacks (created (this w'))).
Proof.
  revert w. induction l as [|cb l IH]; intros w Hl; [done|].
  apply not_elem_of_cons in Hl as [Hcb Hl]. simpl.
  destruct (run_callback_other s payload w cb) as (H1 & H2 & H3 & H4); [done|].
  destruct (IH (run_callback s payload w cb) Hl) as (I1 & I2 & I3 & I4).
  rewrite I1, I2, I3. repeat split; auto.
Qed.

Lemma callbacks_unsubscribe s payload l w :
  (OnceCreated ∈ _callbacks (created (this w)) -> OnceCreated ∈ l) ->
  OnceCreated ∉
    _callbacks (created (this (fold_left (run_callback s payload) l w))).
Proof.
  revert w. induction l as [|cb l IH]; intros w H; simpl.
  - intros Hin. by apply H, elem_of_nil in Hin.
  - apply IH. destruct cb as [| |n]; simpl.
    + intros Hin. by apply not_elem_of_filter_ne in Hin.
    + intros Hin. by apply not_elem_of_filter_ne in Hin.
    + intros Hin. apply H, elem_of_cons in Hin as [Hin|Hin]; done.
Qed.

Lemma emit_created_unsubscribes payload w :
  OnceCreated ∉ _callbacks (created (this (emit SlotCreated payload w))).
Proof. unfold emit. by apply callbacks_unsubscribe. Qed.

Lemma emit_created_again payload w (n : nat) :
  OnceCreated ∉ _callbacks (created (this w)) ->
  let wn := Nat.iter n (emit SlotCreated payload) w in
  yBlock wn = yBlock w /\
  _children (this wn) = _children (this w) /\
  announced wn = announced w /\
  (OnceCreated ∉ _callbacks (created (this wn))).
Proof.
  intros Hw. induction n as [|n (I1 & I2 & I3 & I4)]; [done|].
  change (Nat.iter (S n) (emit SlotCreated payload) w)
    with (emit SlotCreated payload (Nat.iter n (emit SlotCreated payload) w)).
  set (wn := Nat.iter n (emit SlotCreated payload) w) in *.
  destruct (callbacks_other SlotCreated payload
              (_callbacks (created (this wn))) wn I4)
    as (H1 & H2 & H3 & H4).
  unfold emit. simpl slot_of.
  rewrite H1, H2, H3. repeat split; auto.
Qed.

(** ** The invariant of the one-shot handler *)

Lemma run_callback_invariant c0 s payload cb l w :
  occurrences OnceCreated (cb :: l) + registrations w <= c0 + 1 ->
  attach_invariant c0 w ->
  occurrences OnceCreated l + registrations (run_callback s payload w cb)
    <= c0 + 1 /\
  attach_invariant c0 (run_callback s payload w cb).
Proof.
  intros Hl (Hsum & Hc0 & Hdel & Hprops).
  destruct cb as [| |n]; unfold attach_invariant, registrations in *; simpl.
  - rewrite occurrences_cons_eq in Hl.
    rewrite !occurrences_app, !occurrences_cons_eq, !occurrences_nil.
    rewrite (occurrences_notin OnceCreated (filter _ _))
      by apply not_elem_of_filter_ne.
    repeat split; try done; lia.
  - rewrite occurrences_cons_ne in Hl by done.
    rewrite (occurrences_notin OnceCreated (filter _ _))
      by apply not_elem_of_filter_ne.
    repeat split; try done; try lia.
    by apply not_elem_of_filter_sub.
  - rewrite occurrences_cons_ne in Hl by done.
    repeat split; try done; lia.
Qed.

Lemma callbacks_invariant c0 s payload l w :
  occurrences OnceCreated l + registrations w <= c0 + 1 ->
  attach_invariant c0 w ->
  attach_invariant c0 (fold_left (run_callback s payload) l w).
Proof.
  revert w. induction l as [|cb l IH]; intros w Hl Hinv; [done|].
  destruct (run_callback_invariant c0 s payload cb l w Hl Hinv) as [H1 H2].
  simpl. by apply IH.
Qed.

Lemma mutation_invariant c0 w w' :
  (forall s, slot_of s (this w') = slot_of s (this w)) ->
  map_observers (yBlock w') = map_observers (yBlock w) ->
  attach_invariant c0 w -> attach_invariant c0 w'.
Proof.
  intros Hs Hm. unfold attach_invariant, registrations.
  rewrite Hm. pose proof (Hs SlotCreated) as Hc.
  pose proof (Hs SlotDeleted) as Hd. pose proof (Hs SlotPropsUpdated) as Hp.
  simpl in *. by rewrite Hc, Hd, Hp.
Qed.

Lemma step_invariant c0 (o : op) (w : World) :
  attach_invariant c0 w -> attach_invariant c0 (step w o).
Proof.
  intros Hinv. pose proof Hinv as (Hsum & Hc0 & Hdel & Hprops).
  destruct o as [s p|s l| | |i c|i n|c|k v]; simpl.
  - unfold emit. apply callbacks_invariant; [|done].
    destruct s; simpl; [done|..];
      rewrite occurrences_notin by done; lia.
  - unfold attach_invariant, registrations in *. simpl.
    destruct s; simpl; repeat split; try done.
    + rewrite occurrences_app, occurrences_cons_ne by done.
      rewrite occurrences_nil. lia.
    + rewrite not_elem_of_app. split; [done|].
      apply not_elem_of_cons. split; [done|apply not_elem_of_nil].
    + rewrite not_elem_of_app. split; [done|].
      apply not_elem_of_cons. split; [done|apply not_elem_of_nil].
  - unfold attach_invariant, registrations in *. simpl.
    repeat split; try done; try apply not_elem_of_nil. lia.
  - unfold attach_invariant, registrations in *. simpl.
    rewrite (occurrences_notin OnceCreated (filter _ _))
      by apply not_elem_of_filter_ne.
    repeat split; try done; try lia.
    by apply not_elem_of_filter_sub.
  - unfold yarray_insert. case_match; [|done].
    match goal with |- context [edit_children ?c' w] =>
      destruct (edit_children_frame c' w) as (Hs & _ & Hy) end.
    eapply mutation_invariant; [exact Hs| |exact Hinv]. by rewrite Hy.
  - unfold yarray_delete. case_match; [|done].
    match goal with |- context [edit_children ?c' w] =>
      destruct (edit_children_frame c' w) as (Hs & _ & Hy) end.
    eapply mutation_invariant; [exact Hs| |exact Hinv]. by rewrite Hy.
  - destruct (yblock_set_children_frame c w) as (Hs & _ & Hy).
    eapply mutation_invariant; [exact Hs| |exact Hinv]. by rewrite Hy.
  - destruct (yblock_set_frame k v w) as (Hs & _ & _ & Hm).
    eapply mutation_invariant; [exact Hs|exact Hm|exact Hinv].
Qed.

Lemma run_invariant c0 (ops : list op) (w : World) :
  attach_invariant c0 w -> attach_invariant c0 (run ops w).
Proof.
  revert w. induction ops as [|o ops IH]; intros w Hinv; [done|].
  unfold run. simpl. apply IH. by apply step_invariant.
Qed.

Lemma fresh_world_invariant i fl y :
  attach_invariant (occurrences SyncOnKey (map_observers y))
                   (fresh_world i fl y).
Proof.
  unfold attach_invariant, registrations. simpl.
  repeat split.
  - lia.
  - done.
  - apply not_elem_of_cons. split; [done|apply not_elem_of_nil].
  - apply not_elem_of_nil.
Qed.

(** C3: [created] is one-shot.  Once it has fired, firing it again, any
    number of times, leaves the record with its observers, the stored ids
    and the children announcements as they were: the attach callback has
    not run again.  On a node fresh from the constructor the first firing
    puts one observer on the child-id array and one on the record, and the
    further firings change nothing at all.  Over every history of the node
    the record gains at most one observer from it. *)
Theorem created_attaches_once :
  (forall (w : World) (n : nat),
      let w1 := emit SlotCreated None w in
      let wn := Nat.iter n (emit SlotCreated None) w1 in
      yBlock wn = yBlock w1 /\
      _children (this wn) = _children (this w1) /\
      announced wn = announced w1) /\
  (forall (i fl : string) (y : YBlock) (n : nat),
      let w1 := emit SlotCreated None (fresh_world i fl y) in
      Nat.iter n (emit SlotCreated None) w1 = w1 /\
      map_observers (yBlock w1) = map_observers y ++ [SyncOnKey] /\
      array_observers (sys_children (yBlock w1))
        = array_observers (sys_children y) ++ [SyncFromTarget]) /\
  (forall (i fl : string) (y : YBlock) (ops : list op),
      let w := run ops (fresh_world i fl y) in
      occurrences SyncOnKey (map_observers y) <= registrations w /\
      registrations w <= occurrences SyncOnKey (map_observers y) + 1).
Proof.
  split; [|split].
  - intros w n w1 wn.
    destruct (emit_created_again None w1 n
                (emit_created_unsubscribes None w)) as (H1 & H2 & H3 & _).
    done.
  - intros i fl y n w1. split; [|done].
    induction n as [|n IH]; [done|].
    change (Nat.iter (S n) (emit SlotCreated None) w1)
      with (emit SlotCreated None (Nat.iter n (emit SlotCreated None) w1)).
    rewrite IH. reflexivity.
  - intros i fl y ops w.
    destruct (run_invariant _ ops _ (fresh_world_invariant i fl y))
      as (Hsum & Hc0 & _).
    fold w in Hsum, Hc0. split; [done|]. lia.
Qed.

(** * Further properties of the derived values *)

Section MoreDerivedFacts.
Variable page : Blocks.

Lemma omap_length_le {A B} (f : A -> option B) (l : list A) :
  length (omap f l) <= length l.
Proof.
  unfold omap. induction l as [|x l IH]; simpl; [done|].
  destruct (f x); simpl; lia.
Qed.

Lemma omap_length_eq {A B} (f : A -> option B) (l : list A) :
  length (omap f l) = length l <-> Forall (fun x => is_Some (f x)) l.
Proof.
  pose proof (omap_length_le f) as Hle. unfold omap in *.
  induction l as [|x l IH]; simpl.
  - split; [constructor|done].
  - specialize (Hle l).
    rewrite Forall_cons. destruct (f x) as [b|] eqn:E; simpl.
    + rewrite <- IH. split.
      * intros H. split; [by eexists|lia].
      * intros [_ H]. lia.
    + split; [lia|]. intros [[b Hb] _]. done.
Qed.

Lemma deepest_is_leaf (this d : BlockModel) :
  deepest_last_descendant page this d -> children page d = [].
Proof. induction 1; done. Qed.

Lemma deepest_is_descendant (this d : BlockModel) :
  deepest_last_descendant page this d -> rtc (child_step page) this d.
Proof.
  induction 1 as [this E|this c d El _ IH]; [done|].
  eapply rtc_l; [|exact IH]. unfold child_step.
  by apply last_Some_elem_of in El.
Qed.

Lemma last_chain_step (x : BlockModel) :
  (exists c, rtc (last_child_step page) x c /\ tc (last_child_step page) c c) ->
  exists y, last_child_step page x y /\
            exists c, rtc (last_child_step page) y c /\
                      tc (last_child_step page) c c.
Proof.
  intros (c & Hxc & Hcc). apply rtc_inv in Hxc as [->|(y & Hxy & Hyc)].
  - inversion Hcc as [? ? Hstep|? y ? Hstep Hyc]; subst.
    + exists c. split; [done|]. exists c. split; [done|done].
    + exists y. split; [done|]. exists c. split; [by apply tc_rtc|done].
  - exists y. split; [done|]. by exists c.
Qed.
End MoreDerivedFacts.

Lemma reduce_last_occurrence (l : list string) (n : nat)
    (acc : gmap string nat) (i : nat) (k : string) :
  l !! i = Some k ->
  (forall j, i < j -> l !! j <> Some k) ->
  reduce set_index l n acc !! k = Some (n + i).
Proof.
  revert n acc i. induction l as [|x l IH]; intros n acc i Hi Hlast; [done|].
  destruct i as [|i]; simpl in *.
  - injection Hi as ->. rewrite reduce_lookup_notin.
    + unfold set_index. rewrite lookup_insert_eq. f_equal. lia.
    + intros Hin. apply list_elem_of_lookup in Hin as [j Hj].
      apply (Hlast (S j)); [lia|done].
  - rewrite (IH _ _ i); [f_equal; lia|done|].
    intros j Hj. apply (Hlast (S j)). lia.
Qed.

(** [children] never holds more nodes than there are stored ids, and holds
    as many exactly when every stored id resolves in the index. *)
Theorem children_length_bound (page : Blocks) (this : BlockModel) :
  length (children page this) <= length (_children this) /\
  (length (children page this) = length (_children this) <->
   Forall (fun i => is_Some (page !! i)) (_children this)).
Proof.
  rewrite children_omap. split.
  - apply omap_length_le.
  - apply omap_length_eq.
Qed.

(** [children] looks at the index only under the stored ids: a block added
    under another id changes nothing, and a block taken out of the index
    disappears from [children] wherever its id is stored, the other
    children staying in order. *)
Theorem children_index_update (page : Blocks) (this m : BlockModel)
    (i : string) :
  (i ∉ _children this -> children (<[i := m]> page) this = children page this) /\
  children (delete i page) this
  = omap (getBlock page) (filter (fun j => j <> i) (_children this)).
Proof.
  rewrite !children_omap. unfold getBlock, omap. split.
  - induction (_children this) as [|j l IH]; intros Hi; [done|].
    apply not_elem_of_cons in Hi as [Hne Hi]. simpl.
    rewrite lookup_insert_ne by done. by rewrite IH.
  - induction (_children this) as [|j l IH]; [done|].
    simpl. destruct (decide (j = i)) as [->|Hne].
    + rewrite lookup_delete_eq, filter_cons_False by (intros H; by apply H).
      exact IH.
    + rewrite lookup_delete_ne, filter_cons_True by done.
      simpl. by rewrite IH.
Qed.

Lemma children_index_update_witness :
  children (<["z" := node_C]> page_a) node_ab = children page_a node_ab.
Proof.
  apply (proj1 (children_index_update page_a node_ab node_C "z")).
  apply (bool_decide_unpack _). vm_compute. reflexivity.
Defined.

(** When an id is stored more than once, [childMap] keeps the position of
    its last occurrence; an id that is not stored is not a key. *)
Theorem childMap_last_occurrence (this : BlockModel) (i : nat) (k : string) :
  _children this !! i = Some k ->
  (forall j, i < j -> _children this !! j <> Some k) ->
  childMap this !! k = Some i /\
  (forall k', k' ∉ _children this -> childMap this !! k' = None).
Proof.
  intros Hi Hlast. unfold childMap. split.
  - by rewrite (reduce_last_occurrence _ _ _ i).
  - intros k' Hk'. rewrite reduce_lookup_notin by done. apply lookup_empty.
Qed.

Lemma childMap_last_occurrence_witness :
  childMap node_aba !! "a" = Some 2.
Proof.
  apply (childMap_last_occurrence node_aba 2 "a").
  - reflexivity.
  - intros [|[|[|j]]] Hj; try lia; simpl; discriminate.
Defined.

(** The three tests for a node without resolved children agree:
    [isEmpty()] is true, [firstChild()] is null, [lastChild()] returns the
    node itself. *)
Theorem empty_node_navigation (page : Blocks) (this : BlockModel) :
  (isEmpty page this = true <-> firstChild page this = None) /\
  (isEmpty page this = true <->
   exists fuel, lastChild page fuel this = Returned (Some this)).
Proof.
  unfold isEmpty, firstChild. rewrite Nat.eqb_eq, length_zero_iff_nil.
  split.
  - destruct (children page this) as [|c cs]; simpl; split; done.
  - split.
    + intros E. exists 1. by rewrite lastChild_unfold, E.
    + intros [fuel H]. apply lastChild_sound in H.
      by apply deepest_is_leaf in H.
Qed.

(** What [lastChild()] returns is a leaf reached from the node through
    [children], and calling [lastChild()] on it returns it again. *)
Theorem lastChild_returns_leaf (page : Blocks) (fuel : nat)
    (this d : BlockModel) :
  lastChild page fuel this = Returned (Some d) ->
  children page d = [] /\
  rtc (child_step page) this d /\
  lastChild page fuel d = Returned (Some d).
Proof.
  intros H. pose proof (lastChild_sound page fuel this d H) as Hd.
  pose proof (deepest_is_leaf page this d Hd) as Hleaf.
  split; [done|]. split; [by apply deepest_is_descendant|].
  destruct fuel as [|fuel]; [done|].
  by rewrite lastChild_unfold, Hleaf.
Qed.

Lemma lastChild_returns_leaf_witness :
  children page_ABC node_C = [] /\
  rtc (child_step page_ABC) node_A node_C /\
  lastChild page_ABC 3 node_C = Returned (Some node_C).
Proof.
  apply (lastChild_returns_leaf page_ABC 3 node_A node_C).
  vm_compute. reflexivity.
Defined.

(** On a node that lies on a cycle of last children, [lastChild()] never
    returns: the recursion goes on for as long as it is given. *)
Theorem lastChild_cycle (page : Blocks) (this : BlockModel) :
  tc (last_child_step page) this this ->
  forall fuel, lastChild page fuel this = OutOfFuel.
Proof.
  intros Hcycle fuel.
  assert (exists c, rtc (last_child_step page) this c /\
                    tc (last_child_step page) c c) as Hx
      by (exists this; split; [done|done]).
  clear Hcycle. revert this Hx.
  induction fuel as [|fuel IH]; intros this Hx; [done|].
  apply last_chain_step in Hx as (y & Hstep & Hy).
  rewrite lastChild_unfold. unfold last_child_step in Hstep.
  rewrite Hstep. by apply IH.
Qed.

Lemma lastChild_cycle_witness :
  lastChild page_loop 50 node_loop = OutOfFuel.
Proof.
  apply (lastChild_cycle page_loop node_loop).
  apply tc_once. vm_compute. reflexivity.
Defined.

(** * Further properties of the lifecycle *)

(** ** What callbacks and mutations leave alone *)

Lemma run_callback_keeps_out s payload w cb (x : callback) s' :
  x ∉ _callbacks (slot_of s' (this w)) ->
  x ∉ _callbacks (slot_of s' (this (run_callback s payload w cb))).
Proof.
  intros Hx. destruct cb as [| |l], s'; simpl in *; try done;
    by apply not_elem_of_filter_sub.
Qed.

Lemma callbacks_keep_out s payload l w (x : callback) s' :
  x ∉ _callbacks (slot_of s' (this w)) ->
  x ∉ _callbacks (slot_of s' (this (fold_left (run_callback s payload) l w))).
Proof.
  apply (fold_left_preserves
           (fun w => x ∉ _callbacks (slot_of s' (this w)))).
  intros a cb. apply run_callback_keeps_out.
Qed.

Lemma mutation_unobserved (o : op) (w : World) :
  is_mutation o = true ->
  unobserved w ->
  this (step w o) = this w /\
  notifications (step w o) = notifications w /\
  unobserved (step w o).
Proof.
  intros Hm [Ha Hk]. destruct o as [s p|s l| | |i c|i n|c|k v];
    try discriminate; simpl.
  - unfold yarray_insert. case_match; [|done].
    unfold edit_children. simpl.
    rewrite array_observers_foreign by done. done.
  - unfold yarray_delete. case_match; [|done].
    unfold edit_children. simpl.
    rewrite array_observers_foreign by done. done.
  - unfold yblock_set_children.
    rewrite map_observers_foreign by done. simpl.
    repeat split; [apply not_elem_of_nil|done].
  - unfold yblock_set. case_decide; [done|].
    rewrite map_observers_foreign by done. done.
Qed.

(** ** A node that has not been attached *)

Lemma fresh_world_detached i fl y :
  unobserved (fresh_world i fl y) -> detached (fresh_world i fl y).
Proof.
  intros Hu. repeat split; try apply Hu; simpl; try done.
  - apply not_elem_of_cons. split; [done|apply not_elem_of_nil].
  - apply not_elem_of_nil.
Qed.

Lemma step_detached (o : op) (w : World) :
  detached w ->
  is_emit_created o = false \/ OnceCreated ∉ _callbacks (created (this w)) ->
  detached (step w o) /\
  (OnceCreated ∉ _callbacks (created (this w)) ->
   OnceCreated ∉ _callbacks (created (this (step w o)))).
Proof.
  intros (Hu & Hc & Ha & Hd & Hp) Hor.
  destruct (is_mutation o) eqn:Hm.
  - destruct (mutation_unobserved o w Hm Hu) as (Ht & Hn & Hu').
    unfold detached, announced. rewrite Ht, Hn. done.
  - destruct o as [s p|s l| | |i c|i n|c|k v]; try discriminate; simpl.
    + assert (OnceCreated ∉ _callbacks (slot_of s (this w))) as Hl.
      { destruct s; simpl; try done. by destruct Hor. }
      unfold emit.
      destruct (callbacks_other s p _ w Hl) as (H1 & H2 & H3 & H4).
      split; [|exact H4].
      unfold detached, unobserved. rewrite H1, H2, H3.
      repeat split; try apply Hu; try done.
      * by apply (callbacks_keep_out s p _ w OnceCreated SlotDeleted).
      * by apply (callbacks_keep_out s p _ w OnceCreated SlotPropsUpdated).
    + unfold detached, unobserved, announced. simpl.
      destruct s; simpl; repeat split; try apply Hu; try done;
        rewrite not_elem_of_app; (split; [done|]);
        apply not_elem_of_cons; (split; [done|apply not_elem_of_nil]).
    + unfold detached, unobserved, announced. simpl.
      repeat split; try apply Hu; try done; intros; apply not_elem_of_nil.
    + unfold detached, unobserved, announced. simpl.
      repeat split; try apply Hu; try done;
        try (intros; apply not_elem_of_filter_ne).
      by apply not_elem_of_filter_sub.
Qed.

Lemma run_detached (ops : list op) (w : World) :
  detached w ->
  forallb (fun o => negb (is_emit_created o)) ops = true \/
  OnceCreated ∉ _callbacks (created (this w)) ->
  detached (run ops w).
Proof.
  revert w. induction ops as [|o ops IH]; intros w Hd Hor; [done|].
  unfold run. simpl.
  assert (is_emit_created o = false \/
          OnceCreated ∉ _callbacks (created (this w))) as Hor'.
  { destruct Hor as [H|H]; [|by right]. left.
    simpl in H. apply andb_true_iff in H as [H _].
    by apply negb_true_iff in H. }
  destruct (step_detached o w Hd Hor') as [Hd' Hk].
  apply IH; [done|]. destruct Hor as [H|H]; [|right; by apply Hk].
  left. simpl in H. by apply andb_true_iff in H as [_ H].
Qed.

(** Until [created] fires a node stores no child id, whatever its record
    holds and whatever is done to the record and to the slots: its
    [children] and [childMap] are empty and nothing is announced. *)
Theorem childless_until_created (i fl : string) (y : YBlock)
    (ops : list op) (page : Blocks) :
  unobserved (fresh_world i fl y) ->
  forallb (fun o => negb (is_emit_created o)) ops = true ->
  let w := run ops (fresh_world i fl y) in
  _children (this w) = [] /\
  children page (this w) = [] /\
  childMap (this w) = ∅ /\
  announced w = [].
Proof.
  intros Hu Hops w.
  destruct (run_detached ops _ (fresh_world_detached i fl y Hu) (or_introl Hops))
    as (_ & Hc & Ha & _).
  fold w in Hc, Ha. repeat split; try done.
  - by rewrite children_omap, Hc.
  - unfold childMap. by rewrite Hc.
Qed.

Lemma childless_until_created_witness :
  let w := run [YInsert 2 ["c"]; Subscribe SlotCreated 1; YSetChildren ["x"]]
               (fresh_world "n" "affine:note" y_ab) in
  _children (this w) = [] /\
  children page_xy (this w) = [] /\
  childMap (this w) = ∅ /\
  announced w = [].
Proof.
  apply (childless_until_created "n" "affine:note" y_ab
           [YInsert 2 ["c"]; Subscribe SlotCreated 1; YSetChildren ["x"]]
           page_xy).
  - split; apply not_elem_of_nil.
  - vm_compute. reflexivity.
Defined.

(** A teardown before [created] has fired cancels the attachment for good:
    after firing [deleted], [dispose()] or [[Symbol.dispose]()] on a fresh
    node, no history, firing [created] included, makes the node store a
    child id, announce children or observe its record. *)
Theorem teardown_cancels_attach (i fl : string) (y : YBlock) (t : op)
    (ops : list op) :
  unobserved (fresh_world i fl y) ->
  is_teardown t = true ->
  let w := run (t :: ops) (fresh_world i fl y) in
  _children (this w) = [] /\ announced w = [] /\ unobserved w.
Proof.
  intros Hu Ht w.
  pose proof (fresh_world_detached i fl y Hu) as Hd.
  assert (detached (step (fresh_world i fl y) t) /\
          OnceCreated ∉ _callbacks (created (this (step (fresh_world i fl y) t))))
    as [Hd' Hk].
  { destruct t as [[| |] p|s l| | |? ?|? ?|?|? ?]; try discriminate.
    - split; [|simpl; apply not_elem_of_nil].
      apply step_detached; [done|by left].
    - split; [|simpl; apply not_elem_of_nil].
      apply step_detached; [done|by left].
    - split; [|simpl; apply not_elem_of_nil].
      apply step_detached; [done|by left]. }
  destruct (run_detached ops _ Hd' (or_intror Hk)) as (Hu' & Hc & Ha & _).
  done.
Qed.

Lemma teardown_cancels_attach_witness :
  let w := run [Emit SlotDeleted None; Emit SlotCreated None; YInsert 2 ["c"]]
               (fresh_world "n" "affine:note" y_ab) in
  _children (this w) = [] /\ announced w = [] /\ unobserved w.
Proof.
  apply (teardown_cancels_attach "n" "affine:note" y_ab
           (Emit SlotDeleted None) [Emit SlotCreated None; YInsert 2 ["c"]]).
  - split; apply not_elem_of_nil.
  - reflexivity.
Defined.

(** ** A node that observes its record *)

Lemma run_callback_in_sync s payload w cb :
  in_sync w -> observing_array w ->
  in_sync (run_callback s payload w cb) /\
  observing_array (run_callback s payload w cb).
Proof.
  intros Hs Ho. destruct cb as [| |l]; [|done|done].
  destruct (attach_in_sync w) as (H1 & H2 & _). done.
Qed.

Lemma step_in_sync (o : op) (w : World) :
  is_replacement o = false ->
  in_sync w -> observing_array w ->
  in_sync (step w o) /\ observing_array (step w o).
Proof.
  intros Hr Hs Ho.
  destruct o as [s p|s l| | |i c|i n|c|k v]; try discriminate; simpl;
    try done.
  - unfold emit.
    apply (fold_left_preserves (fun w => in_sync w /\ observing_array w));
      [|done].
    intros a cb [H1 H2]. by apply run_callback_in_sync.
  - unfold yarray_insert. case_match; [|done].
    by apply edit_children_in_sync.
  - unfold yarray_delete. case_match; [|done].
    by apply edit_children_in_sync.
  - by apply yblock_set_in_sync.
Qed.

(** Once the node observes the child-id array of its record and stores its
    content, it keeps doing so through every history that does not set the
    entry ['sys:children'] anew: edits in place, other entries, firings,
    subscriptions, and also [dispose()] and [[Symbol.dispose]()], after
    which [children] still follows the record. *)
Theorem children_follow_record (ops : list op) (w : World) (page : Blocks) :
  forallb (fun o => negb (is_replacement o)) ops = true ->
  in_sync w -> observing_array w ->
  _children (this (run ops w)) = toArray (sys_children (yBlock (run ops w))) /\
  children page (this (run ops w))
  = omap (getBlock page) (toArray (sys_children (yBlock (run ops w)))) /\
  observing_array (run ops w).
Proof.
  intros Hops Hs Ho.
  assert (in_sync (run ops w) /\ observing_array (run ops w)) as [Hs' Ho'].
  { revert w Hs Ho. induction ops as [|o ops IH]; intros w Hs Ho; [done|].
    simpl in Hops. apply andb_true_iff in Hops as [Hr Hops].
    apply negb_true_iff in Hr.
    destruct (step_in_sync o w Hr Hs Ho) as [Hs' Ho'].
    unfold run. simpl. by apply IH. }
  split; [exact Hs'|]. split; [|exact Ho'].
  rewrite children_omap. by rewrite Hs'.
Qed.

Lemma children_follow_record_witness :
  let w := run [Dispose; YInsert 0 ["x"]; YDelete 1 1] world_created in
  _children (this w) = ["x"; "b"] /\
  toArray (sys_children (yBlock w)) = ["x"; "b"].
Proof.
  destruct (children_follow_record
              [Dispose; YInsert 0 ["x"]; YDelete 1 1] world_created page_xy)
    as (H & _ & _).
  - reflexivity.
  - reflexivity.
  - apply (bool_decide_unpack _). vm_compute. reflexivity.
  - split; [|vm_compute; reflexivity].
    etransitivity; [exact H|]. vm_compute. reflexivity.
Defined.

(** ** The observers on the record *)

Lemma run_callback_observers s payload w cb :
  map_observers (yBlock w)
    `prefix_of` map_observers (yBlock (run_callback s payload w cb)) /\
  array_observers (sys_children (yBlock w))
    `prefix_of` array_observers (sys_children (yBlock (run_callback s payload w cb))).
Proof.
  destruct cb as [| |l]; simpl; try done.
  split; by apply prefix_app_r.
Qed.

Lemma step_observers (o : op) (w : World) :
  map_observers (yBlock w) `prefix_of` map_observers (yBlock (step w o)) /\
  (is_replacement o = false ->
   array_observers (sys_children (yBlock w))
     `prefix_of` array_observers (sys_children (yBlock (step w o)))).
Proof.
  destruct o as [s p|s l| | |i c|i n|c|k v]; simpl; try done.
  - unfold emit.
    assert (map_observers (yBlock w) `prefix_of`
              map_observers (yBlock (fold_left (run_callback s p)
                (_callbacks (slot_of s (this w))) w)) /\
            array_observers (sys_children (yBlock w)) `prefix_of`
              array_observers (sys_children (yBlock (fold_left (run_callback s p)
                (_callbacks (slot_of s (this w))) w)))) as [H1 H2]; [|done].
    apply (fold_left_preserves
             (fun w' =>
                map_observers (yBlock w) `prefix_of` map_observers (yBlock w') /\
                array_observers (sys_children (yBlock w)) `prefix_of`
                  array_observers (sys_children (yBlock w')))); [|done].
    intros a cb [H1 H2].
    destruct (run_callback_observers s p a cb) as [H3 H4].
    split.
    + by transitivity (map_observers (yBlock a)).
    + by transitivity (array_observers (sys_children (yBlock a))).
  - unfold yarray_insert. case_match; [|done].
    match goal with |- context [edit_children ?c' w] =>
      destruct (edit_children_frame c' w) as (_ & _ & ->) end. done.
  - unfold yarray_delete. case_match; [|done].
    match goal with |- context [edit_children ?c' w] =>
      destruct (edit_children_frame c' w) as (_ & _ & ->) end. done.
  - destruct (yblock_set_children_frame c w) as (_ & _ & ->). done.
  - destruct (yblock_set_frame k v w) as (_ & _ & -> & ->). done.
Qed.

(** No operation takes an observer off the record: through every history,
    teardowns included, the observers of the record stay registered, in
    order, and so do those of the child-id array for as long as the array
    object is kept. *)
Theorem record_observers_stay (ops : list op) (w : World) :
  map_observers (yBlock w) `prefix_of` map_observers (yBlock (run ops w)) /\
  (forallb (fun o => negb (is_replacement o)) ops = true ->
   array_observers (sys_children (yBlock w))
     `prefix_of` array_observers (sys_children (yBlock (run ops w)))).
Proof.
  revert w. induction ops as [|o ops IH]; intros w; [done|].
  destruct (step_observers o w) as [H1 H2].
  destruct (IH (step w o)) as [I1 I2].
  unfold run in *. simpl. split.
  - by transitivity (map_observers (yBlock (step w o))).
  - intros H. apply andb_true_iff in H as [Hr Hops].
    apply negb_true_iff in Hr.
    transitivity (array_observers (sys_children (yBlock (step w o))));
      [by apply H2|by apply I2].
Qed.

Lemma record_observers_stay_witness :
  array_observers (sys_children (yBlock world_created))
    `prefix_of`
  array_observers
    (sys_children (yBlock (run [Emit SlotDeleted None; Dispose; SymbolDispose]
                               world_created))).
Proof.
  apply (proj2 (record_observers_stay
                  [Emit SlotDeleted None; Dispose; SymbolDispose]
                  world_created)).
  reflexivity.
Defined.

(** At any time after [created] has fired on a fresh node, setting the
    entry ['sys:children'] of the record anew makes the node store the
    new array's content at once, also after a teardown. *)
Theorem replacement_resyncs (i fl : string) (y : YBlock) (ops : list op)
    (content : list string) :
  let w := yblock_set_children content
             (run ops (emit SlotCreated None (fresh_world i fl y))) in
  _children (this w) = content /\
  toArray (sys_children (yBlock w)) = content.
Proof.
  intros w.
  set (w1 := emit SlotCreated None (fresh_world i fl y)) in *.
  assert (SyncOnKey ∈ map_observers (yBlock (run ops w1))) as Hk.
  { destruct (record_observers_stay ops w1) as [[k Hk] _].
    rewrite Hk. apply elem_of_app. left. simpl. set_solver. }
  pose proof (yblock_set_children_in_sync content _ Hk) as Hs.
  fold w in Hs. unfold in_sync in Hs. rewrite Hs.
  subst w.
  destruct (yblock_set_children_frame content (run ops w1)) as (_ & _ & ->).
  done.
Qed.

(** The guard on the changed keys: setting any other entry of the record
    stores it and leaves the node and what it has announced untouched. *)
Theorem prop_set_leaves_children (key value : string) (w : World) :
  key <> "sys:children" ->
  this (yblock_set key value w) = this w /\
  notifications (yblock_set key value w) = notifications w /\
  entries (yBlock (yblock_set key value w)) = <[key := value]> (entries (yBlock w)) /\
  sys_children (yBlock (yblock_set key value w)) = sys_children (yBlock w).
Proof.
  intros Hk. unfold yblock_set. rewrite decide_False by done.
  rewrite map_observers_other_key by set_solver. done.
Qed.

Lemma prop_set_leaves_children_witness :
  this (yblock_set "prop:text" "hello" world_created) = this world_created.
Proof.
  apply (prop_set_leaves_children "prop:text" "hello" world_created).
  apply (bool_decide_unpack _). vm_compute. reflexivity.
Defined.

(** ** Teardown and the listeners *)

Lemma omap_listener_filter (x : callback) (l : list callback) :
  listener_of x = None ->
  omap listener_of (filter (fun c => c <> x) l) = omap listener_of l.
Proof.
  intros Hx. unfold omap. induction l as [|c l IH]; [done|].
  destruct (decide (c = x)) as [->|Hne].
  - rewrite filter_cons_False by (intros H; by apply H).
    simpl. rewrite Hx. exact IH.
  - rewrite filter_cons_True by done. simpl. by rewrite IH.
Qed.

Lemma callbacks_delivered s payload l w :
  delivered (fold_left (run_callback s payload) l w)
  = delivered w ++ ((fun n => Delivered s n payload) <$> omap listener_of l).
Proof.
  revert w. unfold omap. induction l as [|cb l IH]; intros w; simpl.
  - by rewrite app_nil_r.
  - rewrite IH. destruct cb as [| |n]; simpl.
    + f_equal. unfold delivered. simpl. rewrite filter_app. simpl.
      rewrite filter_cons_False by done. by rewrite filter_nil, app_nil_r.
    + done.
    + assert (delivered (notify (Delivered s n payload) w)
              = delivered w ++ [Delivered s n payload]) as ->.
      { unfold delivered. simpl. rewrite filter_app. simpl.
        by rewrite filter_cons_True by done. }
      by rewrite <- app_assoc.
Qed.

(** [[Symbol.dispose]()] takes out the two handlers of the class and
    nothing else: the listeners of every slot stay subscribed, in order,
    and a later firing still calls each of them once; [dispose()] leaves
    no listener. *)
Theorem symbol_dispose_keeps_listeners (w : World) (s : slot_name)
    (payload : option string) :
  listeners s (symbol_dispose w) = listeners s w /\
  delivered (emit s payload (symbol_dispose w))
  = delivered w ++ ((fun n => Delivered s n payload) <$> listeners s w) /\
  listeners s (dispose w) = [].
Proof.
  assert (listeners s (symbol_dispose w) = listeners s w) as Hl.
  { unfold listeners. destruct s; simpl; try done;
      by apply omap_listener_filter. }
  split; [exact Hl|]. split; [|by destruct s].
  unfold emit. rewrite callbacks_delivered.
  change (omap listener_of (_callbacks (slot_of s (this (symbol_dispose w)))))
    with (listeners s (symbol_dispose w)).
  by rewrite Hl.
Qed.

(** The teardowns compose: [[Symbol.dispose]()] twice is once, and with
    [dispose()] before or after it the result is that of [dispose()]. *)
Theorem teardown_compose (w : World) :
  symbol_dispose (symbol_dispose w) = symbol_dispose w /\
  dispose (symbol_dispose w) = dispose w /\
  symbol_dispose (dispose w) = dispose w.
Proof.
  split; [|done].
  unfold symbol_dispose, _onDeleted_dispose, _onCreated_dispose, unsubscribe,
    with_this, with_slot, Slot_off. simpl.
  by rewrite !list_filter_filter_l.
Qed.

(** ** Announcements *)

Lemma array_observers_announce target l w :
  notifications (fold_left (run_array_observer target) l w)
  = notifications w
    ++ replicate (occurrences SyncFromTarget l) (ChildrenChanged (toArray target)).
Proof.
  revert w. induction l as [|o l IH]; intros w; cbn [fold_left].
  - rewrite occurrences_nil. simpl. by rewrite app_nil_r.
  - rewrite IH. destruct o as [|n].
    + rewrite occurrences_cons_eq. simpl. by rewrite <- app_assoc.
    + by rewrite occurrences_cons_ne.
Qed.

Lemma map_observers_announce l w :
  notifications (fold_left (run_map_observer {["sys:children"]}) l w)
  = notifications w
    ++ replicate (occurrences SyncOnKey l)
         (ChildrenChanged (toArray (sys_children (yBlock w)))).
Proof.
  revert w. induction l as [|o l IH]; intros w; cbn [fold_left].
  - rewrite occurrences_nil. simpl. by rewrite app_nil_r.
  - rewrite IH. destruct o as [|n].
    + rewrite occurrences_cons_eq. unfold run_map_observer.
      rewrite bool_decide_eq_true_2 by set_solver.
      simpl. by rewrite <- app_assoc.
    + by rewrite occurrences_cons_ne.
Qed.

(** A change of the child ids is announced once per registered observer:
    an edit in place once for each observer the node has on the array, a
    new ['sys:children'] entry once for each observer it has on the record;
    a node attached once to an unobserved record announces each change
    exactly once. *)
Theorem change_announced_per_observer (content : list string) (w : World) :
  notifications (edit_children content w)
  = notifications w
    ++ replicate
         (occurrences SyncFromTarget (array_observers (sys_children (yBlock w))))
         (ChildrenChanged content) /\
  notifications (yblock_set_children content w)
  = notifications w
    ++ replicate (registrations w) (ChildrenChanged content) /\
  (forall i fl y,
      unobserved (fresh_world i fl y) ->
      let w1 := emit SlotCreated None (fresh_world i fl y) in
      notifications (edit_children content w1)
      = notifications w1 ++ [ChildrenChanged content] /\
      notifications (yblock_set_children content w1)
      = notifications w1 ++ [ChildrenChanged content]).
Proof.
  assert (forall w,
    notifications (edit_children content w)
    = notifications w
      ++ replicate
           (occurrences SyncFromTarget (array_observers (sys_children (yBlock w))))
           (ChildrenChanged content)) as Hedit.
  { intros w0. unfold edit_children. by rewrite array_observers_announce. }
  assert (forall w,
    notifications (yblock_set_children content w)
    = notifications w
      ++ replicate (registrations w) (ChildrenChanged content)) as Hset.
  { intros w0. unfold yblock_set_children.
    by rewrite map_observers_announce. }
  split; [apply Hedit|]. split; [apply Hset|].
  intros i fl y [Ha Hk] w1. rewrite Hedit, Hset.
  unfold registrations. subst w1. simpl in *.
  rewrite !occurrences_app, !occurrences_cons_eq, !occurrences_nil.
  rewrite !occurrences_notin by done. done.
Qed.

Lemma change_announced_per_observer_witness :
  notifications (edit_children ["q"] world_created)
  = notifications world_created ++ [ChildrenChanged ["q"]].
Proof.
  destruct (change_announced_per_observer ["q"] world_created)
    as (_ & _ & H).
  apply (H "n" "affine:note" y_ab). split; apply not_elem_of_nil.
Defined.

(** * Properties of UserModel *)

Module UserModelFacts.
Import UserModel.

Lemma get_string (o : Object) (k s : string) :
  get o k = VString s <-> o !! k = Some (VString s).
Proof.
  unfold get. destruct (o !! k) as [v|]; split; intros H; try done.
  - by rewrite H.
  - by injection H.
Qed.

Lemma truthy_string (s : string) : truthy (VString s) = true <-> s <> "".
Proof.
  simpl. rewrite negb_true_iff. split.
  - intros H ->. by rewrite String.eqb_refl in H.
  - intros H. by apply String.eqb_neq.
Qed.

Lemma head_filter_Some {A} (f : A -> bool) (l : list A) (x : A) :
  head (List.filter f l) = Some x ->
  x ∈ l /\ f x = true /\
  exists l1 l2, l = l1 ++ x :: l2 /\ forall y, y ∈ l1 -> f y = false.
Proof.
  induction l as [|a l IH]; simpl; [done|].
  destruct (f a) eqn:Ea; simpl.
  - intros [= ->]. split; [by left|]. split; [done|].
    exists [], l. split; [done|]. intros y Hy. by apply elem_of_nil in Hy.
  - intros H. destruct (IH H) as (Hin & Hf & l1 & l2 & -> & Hl1).
    split; [by right|]. split; [done|].
    exists (a :: l1), l2. split; [done|].
    intros y Hy. apply elem_of_cons in Hy as [->|Hy]; auto.
Qed.

Lemma head_filter_None {A} (f : A -> bool) (l : list A) :
  head (List.filter f l) = None <-> forall x, x ∈ l -> f x = false.
Proof.
  induction l as [|a l IH]; simpl.
  - split; [|done]. intros _ x Hx. by apply elem_of_nil in Hx.
  - destruct (f a) eqn:Ea; simpl.
    + split; [done|]. intros H. specialize (H a (list_elem_of_here _ _)).
      congruence.
    + rewrite IH. split.
      * intros H x Hx. apply elem_of_cons in Hx as [->|Hx]; auto.
      * intros H x Hx. apply H. by right.
Qed.

Lemma encrypt_given_password_lookup sv (data : Object) :
  (forall p, data !! "password" = Some (VString p) -> p <> "" ->
             encrypt_given_password sv data !! "password"
             = Some (VString (encryptPassword sv p))) /\
  (truthy (get data "password") = false ->
   encrypt_given_password sv data = data) /\
  (forall k, k <> "password" ->
             encrypt_given_password sv data !! k = data !! k).
Proof.
  unfold encrypt_given_password. split; [|split].
  - intros p Hp Hne. apply get_string in Hp. rewrite Hp.
    rewrite (proj2 (truthy_string p)) by done. apply lookup_insert_eq.
  - intros Hf. destruct (get data "password"); try done. by rewrite Hf.
  - intros k Hk. destruct (get data "password") as [| | |p| |]; try done.
    destruct (truthy (VString p)); [|done]. by rewrite lookup_insert_ne.
Qed.

(** [signIn] hands out a row only if the table has it, its email is the
    given one up to the database's [lower], it has a stored password that
    is not empty, and the crypto helper accepts the given password for
    it. *)
Theorem signIn_sound (sv : Services) (email password : string) (u : Object) :
  signIn sv email password = Return u ->
  u ∈ users sv /\
  (exists e, u !! "email" = Some (VString e) /\ lower sv e = lower sv email) /\
  (exists hash, u !! "password" = Some (VString hash) /\ hash <> "" /\
                verifyPassword sv password hash = true).
Proof.
  unfold signIn, getUserByEmail. intros H.
  destruct (head _) as [user|] eqn:Hh; [|done].
  apply head_filter_Some in Hh as (Hin & Hm & _).
  destruct (get user "password") as [| | |hash| |] eqn:Hp; try done.
  destruct (truthy (VString hash)) eqn:Ht; [|done]. simpl negb in H. cbv iota in H.
  destruct (verifyPassword sv password hash) eqn:Hv; [|done].
  injection H as <-. split; [done|]. split.
  - unfold email_matches in Hm.
    destruct (user !! "email") as [[| | |e| |]|]; try done.
    exists e. split; [done|]. by apply String.eqb_eq.
  - exists hash. split; [by apply get_string|].
    split; [by apply truthy_string|done].
Qed.

Lemma signIn_sound_witness :
  row_ann ∈ users services_xy.
Proof.
  apply (signIn_sound services_xy "ANN@X.ORG" "secret" row_ann).
  vm_compute. reflexivity.
Defined.

(** An account without a stored password cannot be signed into with any
    password: if the row found for the email has none, or an empty one,
    [signIn] throws WrongSignInMethod without asking the crypto helper. *)
Theorem signIn_without_password (sv : Services) (email password : string)
    (u : Object) :
  getUserByEmail sv email = Some u ->
  truthy (get u "password") = false ->
  signIn sv email password = Throw WrongSignInMethod.
Proof.
  unfold signIn. intros -> Ht.
  destruct (get u "password"); try done. by rewrite Ht.
Qed.

Lemma signIn_without_password_witness :
  signIn services_xy "bob@x.org" "" = Throw WrongSignInMethod.
Proof.
  apply (signIn_without_password services_xy "bob@x.org" "" row_bob);
    vm_compute; reflexivity.
Defined.

(** Emails are compared through the database's [lower]: two emails with
    the same [lower] find the same row and sign into the same account. *)
Theorem signIn_case_insensitive (sv : Services) (e1 e2 password : string) :
  lower sv e1 = lower sv e2 ->
  getUserByEmail sv e1 = getUserByEmail sv e2 /\
  forall u, signIn sv e1 password = Return u <->
            signIn sv e2 password = Return u.
Proof.
  intros Hl.
  assert (getUserByEmail sv e1 = getUserByEmail sv e2) as Hg.
  { unfold getUserByEmail. f_equal. apply List.filter_ext.
    intros row. unfold email_matches. by rewrite Hl. }
  split; [done|]. intros u. unfold signIn. rewrite Hg.
  destruct (getUserByEmail sv e2) as [user|]; [|done].
  destruct (get user "password") as [| | |hash| |]; try done.
  destruct (negb (truthy (VString hash))); [done|].
  destruct (negb (verifyPassword sv password hash)); done.
Qed.

Lemma signIn_case_insensitive_witness :
  getUserByEmail services_xy "ANN@x.org" = getUserByEmail services_xy "ann@X.ORG".
Proof.
  apply (signIn_case_insensitive services_xy "ANN@x.org" "ann@X.ORG" "").
  vm_compute. reflexivity.
Defined.

(** [toPublicUser] keeps the entries [id], [name], [email] and [avatarUrl]
    of the row as they are and drops every other one: the password, the
    registration flag and the verification date never get out. *)
Theorem toPublicUser_keys (user : Object) (k : string) :
  toPublicUser user !! k
  = (if bool_decide (k ∈ publicUserSelect) then user !! k else None) /\
  toPublicUser user !! "password" = None /\
  dom (toPublicUser user) ⊆ list_to_set publicUserSelect.
Proof.
  assert (forall k, toPublicUser user !! k
            = if bool_decide (k ∈ publicUserSelect) then user !! k else None)
    as H.
  { intros k'. unfold toPublicUser. rewrite map_lookup_filter.
    destruct (user !! k') as [v|] eqn:E; simpl.
    - case_bool_decide.
      + by rewrite option_guard_True.
      + by rewrite option_guard_False.
    - by case_bool_decide. }
  split; [apply H|]. split.
  - rewrite H.
    assert (bool_decide ("password" ∈ publicUserSelect) = false) as ->
        by (vm_compute; reflexivity).
    done.
  - intros k' Hk. apply elem_of_dom in Hk as [v Hv]. rewrite H in Hv.
    case_bool_decide; [|done]. by apply elem_of_list_to_set.
Qed.

(** [create] refuses exactly the emails that some row of the table already
    has, up to the database's [lower]; it then throws EmailAlreadyUsed and
    asks the database for nothing. *)
Theorem create_rejects_used_email (sv : Services) (data : Object)
    (email : string) :
  data !! "email" = Some (VString email) ->
  (create sv data = Throw EmailAlreadyUsed <->
   exists u, u ∈ users sv /\ email_matches sv email u = true) /\
  (create sv data <> Throw EmailAlreadyUsed ->
   exists d, create sv data = Create d).
Proof.
  intros He. apply get_string in He. unfold create. rewrite He.
  unfold getUserByEmail.
  destruct (head _) as [user|] eqn:Hh.
  - split; [|done]. split; [|done]. intros _.
    apply head_filter_Some in Hh as (Hin & Hm & _). by exists user.
  - split; [|by eexists]. split; [done|].
    intros (u & Hin & Hm).
    rewrite head_filter_None in Hh. rewrite (Hh u Hin) in Hm. done.
Qed.

Lemma create_rejects_used_email_witness :
  create services_xy (<["email" := VString "ann@X.org"]> ∅)
  = Throw EmailAlreadyUsed.
Proof.
  apply (create_rejects_used_email services_xy
           (<["email" := VString "ann@X.org"]> ∅) "ann@X.org").
  - vm_compute. reflexivity.
  - exists row_ann. split; [|vm_compute; reflexivity].
    apply (bool_decide_unpack _). vm_compute. reflexivity.
Defined.

(** What [create] sends to the database: the email as given; a password
    that was given and is not empty only in its encrypted form, any other
    password entry as it is; the given name, or, when none or an empty one
    was given, what the email has before its first [@], so the default
    name [Unnamed] is never what is sent; every other entry as given,
    [features] included, which is the default's when none is given. *)
Theorem create_data (sv : Services) (data d : Object) (email : string) :
  data !! "email" = Some (VString email) ->
  create sv data = Create d ->
  d !! "email" = Some (VString email) /\
  (forall p, data !! "password" = Some (VString p) -> p <> "" ->
             d !! "password" = Some (VString (encryptPassword sv p))) /\
  (truthy (get data "password") = false ->
   d !! "password" = data !! "password") /\
  d !! "name" = (if truthy (get data "name") then data !! "name"
                 else Some (VString (before_at email))) /\
  (forall k, k <> "password" -> k <> "name" -> k <> "features" ->
             d !! k = data !! k) /\
  d !! "features" = Some (default (VObject 0) (data !! "features")).
Proof.
  intros He Hc. pose proof He as Hg. apply get_string in Hg.
  unfold create in Hc. rewrite Hg in Hc.
  destruct (getUserByEmail sv email); [done|]. injection Hc as <-.
  destruct (encrypt_given_password_lookup sv data) as (Hp1 & Hp2 & Hp3).
  set (data1 := encrypt_given_password sv data) in *.
  assert (get data1 "name" = get data "name") as Hn
      by (unfold get; by rewrite Hp3).
  rewrite Hn. unfold spread, defaultUserCreatingData.
  assert (forall (o : Object) k,
            k <> "name" -> k <> "features" ->
            (o ∪ <["name" := VString "Unnamed"]> (<["features" := VObject 0]> ∅))
              !! k = o !! k) as Hother.
  { intros o k Hk1 Hk2. rewrite lookup_union.
    rewrite !lookup_insert_ne, lookup_empty by done.
    by destruct (o !! k). }
  assert (forall (o : Object) v,
            o !! "name" = Some v ->
            (o ∪ <["name" := VString "Unnamed"]> (<["features" := VObject 0]> ∅))
              !! "name" = Some v) as Hname.
  { intros o v Ho. by apply lookup_union_Some_l. }
  assert (forall (o : Object),
            o !! "features" = data !! "features" ->
            (o ∪ <["name" := VString "Unnamed"]> (<["features" := VObject 0]> ∅))
              !! "features"
            = Some (default (VObject 0) (data !! "features"))) as Hfeat.
  { intros o Ho. rewrite lookup_union, Ho.
    rewrite lookup_insert_ne, lookup_insert_eq by done.
    by destruct (data !! "features"). }
  destruct (truthy (get data "name")) eqn:Ht; simpl negb; cbv iota.
  - repeat split.
    + rewrite Hother by done. by rewrite Hp3.
    + intros p Hp Hne. rewrite Hother by done. by apply Hp1.
    + intros Hf. rewrite Hother by done. by rewrite Hp2.
    + unfold get in Ht. destruct (data !! "name") as [v|] eqn:E; [|done].
      apply Hname. by rewrite Hp3.
    + intros k Hk1 Hk2 Hk3. rewrite Hother by done. by apply Hp3.
    + apply Hfeat. by apply Hp3.
  - repeat split.
    + rewrite Hother, lookup_insert_ne by done. by rewrite Hp3.
    + intros p Hp Hne. rewrite Hother, lookup_insert_ne by done.
      by apply Hp1.
    + intros Hf. rewrite Hother, lookup_insert_ne by done. by rewrite Hp2.
    + apply Hname. apply lookup_insert_eq.
    + intros k Hk1 Hk2 Hk3. rewrite Hother, lookup_insert_ne by done.
      by apply Hp3.
    + apply Hfeat. rewrite lookup_insert_ne by done. by apply Hp3.
Qed.

Lemma create_data_witness :
  exists d,
    create services_xy
      (<["email" := VString "zed@x.org"]> (<["password" := VString "pw"]> ∅))
    = Create d /\
    d !! "password" = Some (VString "h:pw") /\
    d !! "name" = Some (VString "zed").
Proof.
  set (data := <["email" := VString "zed@x.org"]>
                 (<["password" := VString "pw"]> ∅) : Object).
  destruct (create services_xy data) as [| |d|] eqn:E;
    try (exfalso; vm_compute in E; discriminate).
  exists d. split; [reflexivity|].
  destruct (create_data services_xy data d "zed@x.org")
    as (_ & Hp & _ & Hn & _ & _).
  - vm_compute. reflexivity.
  - exact E.
  - split.
    + apply (Hp "pw"); [vm_compute; reflexivity|discriminate].
    + rewrite Hn. vm_compute. reflexivity.
Defined.



(** For an email that has a row, [fulfill] always writes and never
    creates: the row of the raw query carries its verification date under
    the folded name [emailverifiedat], so [user.emailVerifiedAt] is
    undefined and the update, under the id of that row, sets
    [emailVerifiedAt] to the current time whether or not the account was
    verified before; [registered] is absent from the update if the row is
    registered and true otherwise, whatever the data says. *)
Theorem fulfill_existing (sv : Services) (email : string) (data u : Object) :
  getUserByEmail sv email = Some u ->
  query_shaped u ->
  "email" ∉ dom data ->
  exists d,
    fulfill sv email data = Update (get u "id") d /\
    d !! "emailVerifiedAt" = Some (VDate (now sv)) /\
    d !! "registered"
    = (if truthy (get u "registered") then None else Some (VBool true)) /\
    (forall k, k <> "password" -> k <> "registered" ->
               k <> "emailVerifiedAt" -> d !! k = data !! k).
Proof.
  intros Hu Hshape He. apply not_elem_of_dom in He.
  assert (get u "emailVerifiedAt" = VUndefined) as Hv.
  { unfold get. destruct (u !! "emailVerifiedAt") as [v|] eqn:E; [|done].
    exfalso. assert ("emailVerifiedAt" ∈ dom u) as Hin
        by (apply elem_of_dom; by eexists).
    apply Hshape in Hin. apply elem_of_list_to_set in Hin.
    apply (bool_decide_pack _) in Hin. vm_compute in Hin. done. }
  unfold fulfill. rewrite Hu, Hv. simpl truthy. cbv iota.
  set (data1 := if truthy (get u "registered")
                then delete "registered" data
                else <["registered" := VBool true]> data).
  set (data2 := <["emailVerifiedAt" := VDate (now sv)]> data1).
  assert (size data2 <> 0) as Hsize.
  { intros H. apply map_size_empty_iff in H.
    assert (data2 !! "emailVerifiedAt" = Some (VDate (now sv))) as Hl
        by apply lookup_insert_eq.
    rewrite H, lookup_empty in Hl. done. }
  apply Nat.eqb_neq in Hsize. rewrite Hsize. simpl negb. cbv iota.
  assert (forall k, k <> "registered" -> k <> "emailVerifiedAt" ->
                    data2 !! k = data !! k) as Hk.
  { intros k N1 N2. subst data2 data1. rewrite lookup_insert_ne by done.
    destruct (truthy (get u "registered"));
      by rewrite ?lookup_delete_ne, ?lookup_insert_ne by done. }
  assert (data2 !! "registered"
          = if truthy (get u "registered") then None else Some (VBool true))
    as Hr.
  { subst data2 data1. rewrite lookup_insert_ne by done.
    destruct (truthy (get u "registered"));
      by rewrite ?lookup_delete_eq, ?lookup_insert_eq. }
  destruct (encrypt_given_password_lookup sv data2) as (_ & _ & Hp3).
  unfold update.
  assert (get (encrypt_given_password sv data2) "email" = VUndefined) as ->.
  { unfold get. rewrite Hp3, Hk by done. by rewrite He. }
  exists (encrypt_given_password sv data2). split; [done|].
  split; [rewrite Hp3 by done; apply lookup_insert_eq|].
  split; [by rewrite Hp3|].
  intros k N0 N1 N2. rewrite Hp3 by done. by apply Hk.
Qed.

Lemma fulfill_existing_witness :
  exists d,
    fulfill services_xy "ANN@x.org" ∅ = Update (VString "u1") d /\
    d !! "emailVerifiedAt" = Some (VDate 9) /\
    d !! "registered" = None.
Proof.
  destruct (fulfill_existing services_xy "ANN@x.org" ∅ row_ann)
    as (d & H1 & H2 & H3 & _).
  - reflexivity.
  - apply (bool_decide_unpack _). vm_compute. reflexivity.
  - apply (bool_decide_unpack _). vm_compute. reflexivity.
  - exists d. split; [exact H1|]. split; [exact H2|]. exact H3.
Defined.

(** For an email that has no row, [fulfill] creates the account with that
    email, registered and verified at the current time, unless the data
    itself names these entries, in which case the data wins. *)
Theorem fulfill_new (sv : Services) (email : string) (data : Object) :
  getUserByEmail sv email = None ->
  "email" ∉ dom data ->
  exists d,
    fulfill sv email data = Create d /\
    d !! "email" = Some (VString email) /\
    d !! "registered" = Some (default (VBool true) (data !! "registered")) /\
    d !! "emailVerifiedAt"
    = Some (default (VDate (now sv)) (data !! "emailVerifiedAt")).
Proof.
  intros Hu He. apply not_elem_of_dom in He.
  unfold fulfill. rewrite Hu.
  set (data' := spread _ data).
  assert (data' !! "email" = Some (VString email)) as He'.
  { subst data'. unfold spread. rewrite lookup_union_r by done.
    apply lookup_insert_eq. }
  assert (data' !! "registered"
          = Some (default (VBool true) (data !! "registered"))) as Hr.
  { subst data'. unfold spread. rewrite lookup_union.
    rewrite lookup_insert_ne, lookup_insert_eq by done.
    by destruct (data !! "registered"). }
  assert (data' !! "emailVerifiedAt"
          = Some (default (VDate (now sv)) (data !! "emailVerifiedAt"))) as Hv.
  { subst data'. unfold spread. rewrite lookup_union.
    rewrite !lookup_insert_ne, lookup_insert_eq by done.
    by destruct (data !! "emailVerifiedAt"). }
  destruct (create_rejects_used_email sv data' email He') as [Hiff Hc].
  destruct Hc as [d Hd].
  { intros H. apply Hiff in H as (u & Hin & Hm).
    unfold getUserByEmail in Hu. rewrite head_filter_None in Hu.
    rewrite (Hu u Hin) in Hm. done. }
  exists d. split; [done|].
  destruct (create_data sv data' d email He' Hd)
    as (H1 & _ & _ & _ & Hk & _).
  split; [done|]. by rewrite !Hk.
Qed.

Lemma fulfill_new_witness :
  exists d,
    fulfill services_xy "zed@x.org" ∅ = Create d /\
    d !! "email" = Some (VString "zed@x.org") /\
    d !! "registered" = Some (VBool true) /\
    d !! "emailVerifiedAt" = Some (VDate 9).
Proof.
  destruct (fulfill_new services_xy "zed@x.org" ∅) as (d & H1 & H2 & H3 & H4).
  - reflexivity.
  - apply (bool_decide_unpack _). vm_compute. reflexivity.
  - exists d. split; [exact H1|]. split; [exact H2|]. split.
    + rewrite H3. reflexivity.
    + rewrite H4. reflexivity.
Defined.

(** Creating an account and signing into it: when [create] has gone
    through for an email and a password that is not empty, and the database
    has stored a row with the email and the password entry it was sent,
    then [signIn] with that email and that password returns that row,
    provided the crypto helper accepts what it has encrypted and never
    encrypts to the empty string. *)
Theorem create_then_signIn (sv : Services) (data d row : Object)
    (email p : string) :
  data !! "email" = Some (VString email) ->
  data !! "password" = Some (VString p) ->
  p <> "" ->
  create sv data = Create d ->
  row !! "email" = d !! "email" ->
  row !! "password" = d !! "password" ->
  encryptPassword sv p <> "" ->
  verifyPassword sv p (encryptPassword sv p) = true ->
  signIn (with_row row sv) email p = Return row.
Proof.
  intros He Hp Hne Hc Hre Hrp Henc Hver.
  destruct (create_data sv data d email He Hc) as (Hde & Hdp & _).
  rewrite Hde in Hre. rewrite (Hdp p Hp Hne) in Hrp.
  assert (getUserByEmail sv email = None) as Hnone.
  { destruct (getUserByEmail sv email) as [u|] eqn:Hu; [|done].
    apply get_string in He. unfold create in Hc. by rewrite He, Hu in Hc. }
  assert (getUserByEmail (with_row row sv) email = Some row) as Hfound.
  { unfold getUserByEmail in *. simpl. rewrite List.filter_app.
    change (email_matches (with_row row sv) email)
      with (email_matches sv email).
    destruct (List.filter (email_matches sv email) (users sv)); [|done].
    simpl. unfold email_matches. rewrite Hre.
    by rewrite String.eqb_refl. }
  unfold signIn. rewrite Hfound.
  apply get_string in Hrp. rewrite Hrp.
  rewrite (proj2 (truthy_string _)) by done. simpl.
  by rewrite Hver.
Qed.

Lemma create_then_signIn_witness :
  signIn (with_row row_zed services_xy) "zed@x.org" "pw" = Return row_zed.
Proof.
  set (data := <["email" := VString "zed@x.org"]>
                 (<["password" := VString "pw"]> ∅) : Object).
  destruct (create services_xy data) as [| |d|] eqn:E;
    try (exfalso; vm_compute in E; discriminate).
  apply (create_then_signIn services_xy data d row_zed "zed@x.org" "pw").
  - vm_compute. reflexivity.
  - vm_compute. reflexivity.
  - discriminate.
  - exact E.
  - vm_compute in E. injection E as <-. vm_compute. reflexivity.
  - vm_compute in E. injection E as <-. vm_compute. reflexivity.
  - discriminate.
  - vm_compute. reflexivity.
Defined.

End UserModelFacts.
